(** * drf_yasg.utils: a shallow embedding of the override decorator and the
    introspection helpers of [drf_yasg/utils.py], with their properties. *)

From Stdlib Require Import String Ascii List ListDec Bool Arith Lia.
Import ListNotations.
Open Scope string_scope.
Open Scope nat_scope.
Open Scope list_scope.
#[local] Set Warnings "-register-all".

(** ** Python values *)

(** The Python objects the helpers look at.  [PObj n] is any other object
    (a serializer, a schema, a class ...), told apart by an identity [n]. *)
Inductive pyval : Type :=
| PNone
| PBool (b : bool)
| PInt (n : nat)
| PStr (s : string)
| PList (l : list pyval)
| PTuple (l : list pyval)
| PDict (kv : list (pyval * pyval))
| PObj (n : nat).

Definition is_none (v : pyval) : bool :=
  match v with PNone => true | _ => false end.

(** Python truthiness ([bool(v)]). *)
Definition truthy (v : pyval) : bool :=
  match v with
  | PNone => false
  | PBool b => b
  | PInt n => negb (Nat.eqb n 0)
  | PStr s => negb (String.eqb s "")
  | PList l | PTuple l => negb (Nat.eqb (length l) 0)
  | PDict kv => negb (Nat.eqb (length kv) 0)
  | PObj _ => true
  end.

(** [len(v)] of a collection; other objects have no length. *)
Definition py_len (v : pyval) : option nat :=
  match v with
  | PStr s => Some (String.length s)
  | PList l | PTuple l => Some (length l)
  | PDict kv => Some (length kv)
  | _ => None
  end.

(** ** Strings *)

(** [str.lower()] on the ASCII range. *)
Definition lower_ascii (c : ascii) : ascii :=
  let n := nat_of_ascii c in
  if (65 <=? n)%nat && (n <=? 90)%nat then ascii_of_nat (n + 32) else c.

Fixpoint lower (s : string) : string :=
  match s with
  | EmptyString => EmptyString
  | String c t => String (lower_ascii c) (lower t)
  end.

(** [s.endswith(suf)] *)
Definition endswith (s suf : string) : bool :=
  let n := String.length s in
  let m := String.length suf in
  (m <=? n) && String.eqb (substring (n - m) m s) suf.

(** ** Exceptions and the state/exception monad *)

(** A raised [AssertionError] (or any other exception) with its message. *)
Inductive exn_or (A : Type) : Type :=
| Ok (a : A)
| Raise (msg : string).
Arguments Ok {A} a.
Arguments Raise {A} msg.

(** Computations over a mutable object of type [S]: an exception leaves the
    object in the state it had when the exception was raised. *)
Definition M (S A : Type) : Type := S -> S * exn_or A.

Definition ret {S A} (a : A) : M S A := fun s => (s, Ok a).
Definition bind {S A B} (m : M S A) (k : A -> M S B) : M S B :=
  fun s => match m s with
           | (s', Ok a) => k a s'
           | (s', Raise e) => (s', Raise e)
           end.
Definition get {S} : M S S := fun s => (s, Ok s).
Definition modify {S} (f : S -> S) : M S unit := fun s => (f s, Ok tt).
Definition raise {S A} (msg : string) : M S A := fun s => (s, Raise msg).
(** [assert cond, msg] *)
Definition assert {S} (b : bool) (msg : string) : M S unit :=
  if b then ret tt else raise msg.
(** a pure computation that may raise *)
Definition lift {S A} (r : exn_or A) : M S A := fun s => (s, r).

Notation "x <- m ;; k" := (bind m (fun x => k))
  (at level 61, m at next level, right associativity).
Notation "m ;;; k" := (bind m (fun _ => k))
  (at level 61, right associativity).

(** ** [filter_none] *)

Definition not_none (v : pyval) : bool := negb (is_none v).

(** [filter_none(obj)]: a new collection without the [None] entries, or [obj]
    itself when nothing was removed (or when it is no collection). *)
Definition filter_none (obj : pyval) : pyval :=
  match obj with
  | PNone => PNone
  | _ =>
      let new_obj :=
        match obj with
        | PDict kv =>
            Some (PDict (filter (fun kv => not_none (fst kv) && not_none (snd kv)) kv))
        | PList l => Some (PList (filter not_none l))
        | PTuple l => Some (PTuple (filter not_none l))
        | _ => None
        end in
      match new_obj with
      | Some n =>
          match py_len n, py_len obj with
          | Some a, Some b => if negb (Nat.eqb a b) then n else obj
          | _, _ => obj
          end
      | None => obj
      end
  end.

(** A collection without [None] entries (nor [None] keys); other values
    have no entries. *)
Definition no_none_entries (v : pyval) : bool :=
  match v with
  | PList l | PTuple l => forallb not_none l
  | PDict kv => forallb (fun kv => not_none (fst kv) && not_none (snd kv)) kv
  | _ => true
  end.

(** ** Dictionaries with string keys *)

(** A Python [dict] whose keys are strings, in insertion order. *)
Definition sdict : Type := list (string * pyval).

Definition in_keys (k : string) (d : sdict) : bool :=
  existsb (String.eqb k) (map fst d).

(** [d[k] = v]: an existing key keeps its position. *)
Fixpoint dict_set (k : string) (v : pyval) (d : sdict) : sdict :=
  match d with
  | [] => [(k, v)]
  | (k', v') :: t => if String.eqb k k' then (k, v) :: t else (k', v') :: dict_set k v t
  end.

(** [d.update(pairs)] *)
Definition dict_update (d : sdict) (pairs : sdict) : sdict :=
  fold_left (fun acc kv => dict_set (fst kv) (snd kv) acc) pairs d.

(** The same dict seen as a Python value. *)
Definition pdict_of (d : sdict) : pyval :=
  PDict (map (fun kv => (PStr (fst kv), snd kv)) d).

Definition mem (s : string) (l : list string) : bool := existsb (String.eqb s) l.

Definition nonempty {A} (l : list A) : bool :=
  match l with [] => false | _ => true end.

(** ** The decorator of [swagger_auto_schema] *)

(** [APIView.http_method_names] *)
Definition http_method_names : list string :=
  ["get"; "post"; "put"; "patch"; "delete"; "head"; "options"; "trace"].

(** The [methods] argument: [None], a bare string, or a list of names. *)
Inductive methods_arg : Type :=
| MsNone
| MsStr (s : string)
| MsList (l : list string).

Definition methods_truthy (m : methods_arg) : bool :=
  match m with
  | MsNone => false
  | MsStr s => negb (String.eqb s "")
  | MsList l => nonempty l
  end.

Definition methods_is_str (m : methods_arg) : bool :=
  match m with MsStr _ => true | _ => false end.

Definition methods_list (m : methods_arg) : list string :=
  match m with MsList l => l | _ => [] end.

(** [method] is [None] or a string. *)
Definition method_truthy (m : option string) : bool :=
  match m with None => false | Some s => negb (String.eqb s "") end.

(** The arguments of [swagger_auto_schema]: [a_auto_schema = None] stands for
    the [unset] sentinel, [a_extra_overrides] for [**extra_overrides]. *)
Record sas_args : Type := {
  a_method : option string;
  a_methods : methods_arg;
  a_auto_schema : option pyval;
  a_request_body : pyval;
  a_query_serializer : pyval;
  a_manual_parameters : pyval;
  a_operation_id : pyval;
  a_operation_description : pyval;
  a_operation_summary : pyval;
  a_security : pyval;
  a_deprecated : pyval;
  a_responses : pyval;
  a_field_inspectors : pyval;
  a_filter_inspectors : pyval;
  a_paginator_inspectors : pyval;
  a_extra_overrides : sdict
}.

(** [swagger_auto_schema()] with every argument at its default. *)
Definition default_args : sas_args := {|
  a_method := None; a_methods := MsNone; a_auto_schema := None;
  a_request_body := PNone; a_query_serializer := PNone; a_manual_parameters := PNone;
  a_operation_id := PNone; a_operation_description := PNone; a_operation_summary := PNone;
  a_security := PNone; a_deprecated := PNone; a_responses := PNone;
  a_field_inspectors := PNone; a_filter_inspectors := PNone; a_paginator_inspectors := PNone;
  a_extra_overrides := [] |}.

(** [list(v)] *)
Definition py_list (v : pyval) : exn_or pyval :=
  match v with
  | PList l | PTuple l => Ok (PList l)
  | PDict kv => Ok (PList (map fst kv))
  | PStr s => Ok (PList (map (fun c => PStr (String c EmptyString)) (list_ascii_of_string s)))
  | _ => Raise "TypeError: object is not iterable"
  end.

(** [list(v) if v else None] *)
Definition list_or_none (v : pyval) : exn_or pyval :=
  if truthy v then py_list v else Ok PNone.

(** Lines 103-118: the [data] dict of the overrides. *)
Definition build_data (a : sas_args) : exn_or sdict :=
  match list_or_none (a_filter_inspectors a) with
  | Raise e => Raise e
  | Ok fi =>
  match list_or_none (a_paginator_inspectors a) with
  | Raise e => Raise e
  | Ok pi =>
  match list_or_none (a_field_inspectors a) with
  | Raise e => Raise e
  | Ok fli =>
      let data0 : sdict :=
        [("request_body", a_request_body a);
         ("query_serializer", a_query_serializer a);
         ("manual_parameters", a_manual_parameters a);
         ("operation_id", a_operation_id a);
         ("operation_description", a_operation_description a);
         ("security", a_security a);
         ("responses", a_responses a);
         ("filter_inspectors", fi);
         ("paginator_inspectors", pi);
         ("field_inspectors", fli)] in
      (* [filter_none(data)]: the keys are strings, never [None] *)
      let data1 := filter (fun kv => not_none (snd kv)) data0 in
      let data2 := match a_auto_schema a with
                   | Some v => dict_set "auto_schema" v data1
                   | None => data1
                   end in
      Ok (dict_update data2 (a_extra_overrides a))
  end end end.

(** A view class: its [http_method_names] and its attributes by name, each
    with a flag telling whether it carries a [_swagger_auto_schema]. *)
Record view_cls : Type := {
  vc_http_method_names : list string;
  vc_attrs : list (string * bool)
}.

(** The decorated view method: the attributes the decorator reads, and the
    [_swagger_auto_schema] attribute it writes ([None] while absent). *)
Record handler : Type := {
  h_name : string;                        (* __name__ *)
  h_bind_to_methods : list string;        (* bind_to_methods, default [] *)
  h_mapping : list (string * string);     (* mapping, default {} *)
  h_cls : option view_cls;                (* cls, default None *)
  h_sas : option sdict                    (* _swagger_auto_schema *)
}.

Definition set_sas (h : handler) (d : option sdict) : handler := {|
  h_name := h_name h; h_bind_to_methods := h_bind_to_methods h;
  h_mapping := h_mapping h; h_cls := h_cls h; h_sas := d |}.

(** [hasattr(view_cls, m)] *)
Definition cls_hasattr (vc : option view_cls) (m : string) : bool :=
  match vc with
  | None => false
  | Some c => mem m (map fst (vc_attrs c))
  end.

(** [hasattr(getattr(view_cls, m, None), '_swagger_auto_schema')] *)
Definition cls_attr_has_sas (vc : option view_cls) (m : string) : bool :=
  match vc with
  | None => false
  | Some c =>
      match find (fun kv => String.eqb m (fst kv)) (vc_attrs c) with
      | Some (_, b) => b
      | None => false
      end
  end.

(** Lines 124-127 *)
Definition action_http_methods (vm : handler) : list string :=
  let mapping_methods :=
    map fst (filter (fun kv => String.eqb (snd kv) (h_name vm)) (h_mapping vm)) in
  h_bind_to_methods vm ++ mapping_methods.

(** Lines 130-131 *)
Definition api_view_http_methods (vm : handler) : list string :=
  let view_cls := h_cls vm in
  let names := match view_cls with Some c => vc_http_method_names c | None => [] end in
  filter (cls_hasattr view_cls) names.

(** Line 133 *)
Definition available_http_methods (vm : handler) : list string :=
  api_view_http_methods vm ++ action_http_methods vm.

(** Line 134: [getattr(view_method, '_swagger_auto_schema', {})] *)
Definition existing_data (vm : handler) : sdict :=
  match h_sas vm with Some d => d | None => [] end.

(** What the decorator returns: [None] or the view method itself. *)
Inductive ret_val : Type := RetNone | RetHandler.

(** Lines 136-147: the explicit [method]/[methods] selector.  The empty list
    stands for [_methods = methods] when [methods] is falsy. *)
Definition select_methods (a : sas_args) (available : list string) (existing : sdict)
  : M handler (list string) :=
  if methods_truthy (a_methods a) || method_truthy (a_method a) then
    assert (nonempty available)
      "`method` or `methods` can only be specified on @action or @api_view views" ;;;
    assert (xorb (methods_truthy (a_methods a)) (method_truthy (a_method a)))
      "specify either method or methods" ;;;
    assert (negb (methods_is_str (a_methods a)))
      "`methods` expects to receive a list of methods; use `method` for a single argument" ;;;
    let ms := if method_truthy (a_method a)
              then match a_method a with Some m => [lower m] | None => [] end
              else map lower (methods_list (a_methods a)) in
    assert (forallb (fun m => mem m available) ms) "http method not bound to view" ;;;
    assert (negb (existsb (fun m => in_keys m existing) ms))
      "http method defined multiple times" ;;;
    ret ms
  else ret [].

(** [swagger_auto_schema(...)(view_method)]: the inner [decorator]. *)
Definition decorator (a : sas_args) : M handler ret_val :=
  assert (negb (existsb (fun hm => in_keys hm (a_extra_overrides a)) http_method_names))
    "HTTP method names not allowed here" ;;;
  data <- lift (build_data a) ;;
  if negb (nonempty data) then ret RetNone else
  vm <- get ;;
  let action := action_http_methods vm in
  let apiv := api_view_http_methods vm in
  let available := apiv ++ action in
  let existing := existing_data vm in
  sel <- select_methods a available existing ;;
  if nonempty available then
    assert (xorb (nonempty apiv) (nonempty action)) "this should never happen" ;;;
    ms <- (if 1 <? length available
           then assert (nonempty sel)
                  "on multi-method api_view, action, detail_route or list_route, you must specify swagger_auto_schema on a per-method basis using one of the `method` or `methods` arguments" ;;;
                ret sel
           else ret (if nonempty sel then sel else available)) ;;
    assert (negb (existsb (cls_attr_has_sas (h_cls vm)) ms))
      "swagger_auto_schema applied twice to method" ;;;
    assert (negb (existsb (fun m => in_keys m existing) ms))
      "swagger_auto_schema applied twice to method" ;;;
    let updated := dict_update existing (map (fun m => (lower m, pdict_of data)) ms) in
    (* [existing_data.update(...)] mutates the attribute's dict in place when
       there was one; the assignment then (re)binds the attribute *)
    modify (fun h => match h_sas h with Some _ => set_sas h (Some updated) | None => h end) ;;;
    modify (fun h => set_sas h (Some updated)) ;;;
    ret RetHandler
  else
    assert (negb (nonempty sel))
      "the methods argument should only be specified when decorating an action, detail_route or list_route; you should also ensure that you put the swagger_auto_schema decorator AFTER (above) the _route decorator" ;;;
    assert (negb (nonempty existing)) "swagger_auto_schema applied twice to method" ;;;
    modify (fun h => set_sas h (Some data)) ;;;
    ret RetHandler.

(** The (handler, method) pairs a registration aims at, following the words
    of the spec (section 4.3, steps 4 and 5): the lower-cased selector names
    when [method] or [methods] is given, otherwise the single available
    method, or the whole handler when it has none. *)
Inductive target : Type := TWhole | TMethod (m : string).

Definition selector_names (a : sas_args) : list string :=
  (if method_truthy (a_method a)
   then match a_method a with Some s => [lower s] | None => [] end
   else [])
  ++ map lower (methods_list (a_methods a)).

Definition spec_targets (a : sas_args) (h : handler) : list target :=
  if methods_truthy (a_methods a) || method_truthy (a_method a)
  then map TMethod (selector_names a)
  else match available_http_methods h with
       | [] => [TWhole]
       | [m] => [TMethod m]
       | _ => []
       end.

(** ** [param_list_to_odict] *)

(** A [Parameter]: its [name], its [in_] and the rest of it. *)
Record parameter : Type := {
  p_name : string;
  p_in : string;
  p_rest : pyval
}.

Definition param_key (p : parameter) : string * string := (p_name p, p_in p).

Definition key_eqb (k1 k2 : string * string) : bool :=
  String.eqb (fst k1) (fst k2) && String.eqb (snd k1) (snd k2).

(** [od[k] = v] on an [OrderedDict]: an existing key keeps its position. *)
Fixpoint od_set {V} (k : string * string) (v : V) (d : list ((string * string) * V))
  : list ((string * string) * V) :=
  match d with
  | [] => [(k, v)]
  | (k', v') :: t => if key_eqb k k' then (k', v) :: t else (k', v') :: od_set k v t
  end.

(** [OrderedDict(((p.name, p.in_), p) for p in parameters)] *)
Definition odict_of_params (ps : list parameter) : list ((string * string) * parameter) :=
  fold_left (fun d p => od_set (param_key p) p d) ps [].

Definition param_list_to_odict (ps : list parameter)
  : exn_or (list ((string * string) * parameter)) :=
  let result := odict_of_params ps in
  if Nat.eqb (length result) (length ps) then Ok result
  else Raise "duplicate Parameters found".

(** ** [get_consumes] *)

Record parser_class : Type := { media_type : string }.

(** [get_consumes(parser_classes)], for DRF's [is_form_media_type] given as
    [is_form_media_type]; [None] is a [parser_classes] of [None]. *)
Definition get_consumes (is_form_media_type : string -> bool)
  (parser_classes : option (list parser_class)) : list string :=
  let media_types := map media_type (match parser_classes with Some l => l | None => [] end) in
  if forallb is_form_media_type media_types then media_types
  else filter (fun e => negb (is_form_media_type e)) media_types.

(** The base media type: the text before the first [;]. *)
Fixpoint base_media_type (s : string) : string :=
  match s with
  | EmptyString => EmptyString
  | String c t => if Ascii.eqb c ";"%char then EmptyString else String c (base_media_type t)
  end.

(** DRF's [rest_framework.request.is_form_media_type] (a collaborator, not
    code of this repository): the lower-cased base type, without the
    header-parameter whitespace rules. *)
Definition drf_is_form_media_type (m : string) : bool :=
  let b := lower (base_media_type m) in
  String.eqb b "application/x-www-form-urlencoded" || String.eqb b "multipart/form-data".

(** ** [get_serializer_ref_name] *)

(** A serializer instance: the [__name__] of its class, whether it is a
    [ModelSerializer], [Meta.ref_name] ([None] when there is no [Meta] or
    no [ref_name] on it, [Some None] for [ref_name = None]), and the outcome
    of [str(serializer)] ([Some msg]: it raises [msg], as DRF's
    [serializer_repr] does for a [ModelSerializer] without [Meta]). *)
Record serializer : Type := {
  s_class_name : string;
  s_is_model_serializer : bool;
  s_meta_ref_name : option (option string);
  s_str_error : option string
}.

(** The result: [None] is the inline marker.  The debug message of line 360
    is built, with [str(serializer)], before [logger.debug] is called. *)
Definition get_serializer_ref_name (ser : serializer) : exn_or (option string) :=
  let serializer_name := s_class_name ser in
  match s_meta_ref_name ser with
  | Some ref_name => Ok ref_name
  | None =>
      if String.eqb serializer_name "NestedSerializer" && s_is_model_serializer ser
      then match s_str_error ser with
           | Some e => Raise e
           | None => Ok None
           end
      else if endswith serializer_name "Serializer"
           then Ok (Some (substring 0 (String.length serializer_name - String.length "Serializer")
                            serializer_name))
           else Ok (Some serializer_name)
  end.

(** The spec's reading of step (c): the class name without a trailing
    ["Serializer"], if it has one. *)
Definition spec_stripped (name result : string) : Prop :=
  (exists p, name = (p ++ "Serializer")%string /\ result = p)
  \/ ((forall p, name <> (p ++ "Serializer")%string) /\ result = name).

(** ** [is_list_view] *)

(** A view: its [action] attribute ([None]: absent, [Some None]: [None]),
    the [detail] flag of its attributes by name ([None] when the attribute
    has no boolean [detail]), its [suffix], and whether it is an instance of
    [RetrieveModelMixin], [UpdateModelMixin] or [DestroyModelMixin]. *)
Record api_view : Type := {
  v_action : option (option string);
  v_attr_detail : list (string * option bool);
  v_suffix : option string;
  v_detail_mixin : bool
}.

Definition ascii_slash : ascii := "/"%char.
Definition ascii_lbrace : ascii := "{"%char.

Fixpoint drop_slashes (l : list ascii) : list ascii :=
  match l with
  | c :: t => if Ascii.eqb c ascii_slash then drop_slashes t else l
  | [] => []
  end.

Fixpoint take_to_slash (l : list ascii) : list ascii :=
  match l with
  | c :: t => if Ascii.eqb c ascii_slash then [] else c :: take_to_slash t
  | [] => []
  end.

(** [path.strip('/').split('/')[-1]] *)
Definition last_path_component (path : string) : list ascii :=
  let stripped := rev (drop_slashes (rev (drop_slashes (list_ascii_of_string path)))) in
  rev (take_to_slash (rev stripped)).

(** [is_list_view(path, method, view)]; [Raise] is the [TypeError] of
    [getattr(view, None, None)] when [view.action] is [None]. *)
Definition is_list_view (path : string) (method : string) (view : api_view) : exn_or bool :=
  let action := match v_action view with Some a => a | None => Some "" end in
  match action with
  | None => Raise "TypeError: attribute name must be string"
  | Some act =>
      let detail :=
        match find (fun kv => String.eqb act (fst kv)) (v_attr_detail view) with
        | Some (_, d) => d
        | None => None
        end in
      let suffix := v_suffix view in
      if mem act ["list"; "create"] || (match detail with Some false => true | _ => false end)
         || (match suffix with Some s => String.eqb s "List" | None => false end)
      then Ok true
      else if mem act ["retrieve"; "update"; "partial_update"; "destroy"]
              || (match detail with Some true => true | _ => false end)
              || (match suffix with Some s => String.eqb s "Instance" | None => false end)
      then Ok false
      else if v_detail_mixin view then Ok false
      else if existsb (Ascii.eqb ascii_lbrace) (last_path_component path) then Ok false
      else Ok true
  end.

(** A record is stored for a target: the whole view method, or a method. *)
Definition stored (t : target) (h : handler) : Prop :=
  match t with
  | TWhole => existing_data h <> []
  | TMethod m => in_keys m (existing_data h) = true
  end.

(** Registrations applied one after the other to the same view method.  A
    registration that raises leaves the view method as it was, so the
    states reached are those of any subsequence of the calls. *)
Fixpoint run_registrations (calls : list sas_args) (h : handler) : handler :=
  match calls with
  | [] => h
  | a :: rest => run_registrations rest (fst (decorator a h))
  end.

(** The methods the decorator writes, once the selector is resolved
    (lines 153-159). *)
Definition written_methods (sel available : list string) : list string :=
  if 1 <? length available then sel else (if nonempty sel then sel else available).

(** [d.get(k)] on a dict with string keys. *)
Fixpoint dict_get (k : string) (d : sdict) : option pyval :=
  match d with
  | [] => None
  | (k', v) :: t => if String.eqb k k' then Some v else dict_get k t
  end.

(** The same arguments with other [operation_summary] and [deprecated]. *)
Definition with_summary_deprecated (a : sas_args) (summary deprecated : pyval) : sas_args := {|
  a_method := a_method a; a_methods := a_methods a; a_auto_schema := a_auto_schema a;
  a_request_body := a_request_body a; a_query_serializer := a_query_serializer a;
  a_manual_parameters := a_manual_parameters a; a_operation_id := a_operation_id a;
  a_operation_description := a_operation_description a; a_operation_summary := summary;
  a_security := a_security a; a_deprecated := deprecated; a_responses := a_responses a;
  a_field_inspectors := a_field_inspectors a; a_filter_inspectors := a_filter_inspectors a;
  a_paginator_inspectors := a_paginator_inspectors a;
  a_extra_overrides := a_extra_overrides a |}.

(** ** [get_produces] *)




(** ** [force_serializer_instance] and [get_serializer_class] *)

(** A Python class: its [__name__], whether it is a subclass of
    [serializers.BaseSerializer], and the outcome of calling it with no
    arguments ([Some msg]: the constructor raises [msg]). *)
Record py_class : Type := {
  pc_name : string;
  pc_is_serializer : bool;
  pc_init_error : option string
}.

(** The argument: [None], a class, or an instance of a class. *)
Inductive sobj : Type :=
| SONone
| SOClass (c : py_class)
| SOInstance (c : py_class).

(** [type(obj).__name__] *)
Definition type_name (x : sobj) : string :=
  match x with
  | SONone => "NoneType"
  | SOClass _ => "type"
  | SOInstance c => pc_name c
  end.

Definition force_serializer_instance (serializer : sobj) : exn_or sobj :=
  match serializer with
  | SOClass c =>
      if pc_is_serializer c then
        match pc_init_error c with
        | None => Ok (SOInstance c)
        | Some e => Raise e
        end
      else Raise ("Serializer required, not " ++ pc_name c)%string
  | SOInstance c =>
      if pc_is_serializer c then Ok serializer
      else Raise ("Serializer class or instance required, not " ++ type_name serializer)%string
  | SONone => Raise ("Serializer class or instance required, not " ++ type_name serializer)%string
  end.

Definition get_serializer_class (serializer : sobj) : exn_or (option py_class) :=
  match serializer with
  | SONone => Ok None
  | SOClass c =>
      if pc_is_serializer c then Ok (Some c)
      else Raise ("Serializer required, not " ++ pc_name c)%string
  | SOInstance c =>
      if pc_is_serializer c then Ok (Some c)
      else Raise ("Serializer class or instance required, not " ++ type_name serializer)%string
  end.

(** ** [decimal_as_float] and [get_field_default] *)

(** The [default] attribute of a field: absent ([serializers.empty]), a plain
    value, or a callable, with the outcome of its [set_context(field)] when it
    has one and the outcome of calling it. *)
Inductive raw_default : Type :=
| RDEmpty
| RDValue (v : pyval)
| RDCallable (set_context : option (exn_or unit)) (call : exn_or pyval).

(** A field: its [default], its [to_representation], whether it is a
    [serializers.DecimalField] or a [models.DecimalField], and its
    [coerce_to_string] attribute ([None] when absent). *)
Record field : Type := {
  fd_default : raw_default;
  fd_to_representation : pyval -> exn_or pyval;
  fd_is_decimal : bool;
  fd_coerce_to_string : option pyval
}.

(** [decimal_as_float(field)], for the setting [COERCE_DECIMAL_TO_STRING]. *)
Definition decimal_as_float (coerce_decimal_to_string : pyval) (f : field) : bool :=
  if fd_is_decimal f then
    negb (truthy (match fd_coerce_to_string f with
                  | Some v => v
                  | None => coerce_decimal_to_string
                  end))
  else false.

(** The result: [serializers.empty] or a value. *)
Inductive fdefault : Type := FEmpty | FValue (v : pyval).

(** [get_field_default(field)]; [json_roundtrip] is
    [json.loads(json.dumps(_, cls=encoders.JSONEncoder))] and [to_float] is
    [float(_)], each of which may raise. *)
Definition get_field_default (json_roundtrip to_float : pyval -> exn_or pyval)
  (coerce_decimal_to_string : pyval) (f : field) : fdefault :=
  let default :=
    match fd_default f with
    | RDEmpty => FEmpty
    | RDValue v => FValue v
    | RDCallable set_context call =>
        (* try: ... except Exception: default = serializers.empty *)
        match match set_context with Some r => r | None => Ok tt end with
        | Raise _ => FEmpty
        | Ok _ => match call with Ok v => FValue v | Raise _ => FEmpty end
        end
    end in
  match default with
  | FEmpty => FEmpty
  | FValue v =>
      (* try: ... except Exception: default = serializers.empty *)
      match fd_to_representation f v with
      | Raise _ => FEmpty
      | Ok r =>
          match json_roundtrip r with
          | Raise _ => FEmpty
          | Ok j =>
              if decimal_as_float coerce_decimal_to_string f
              then match to_float j with Ok x => FValue x | Raise _ => FEmpty end
              else FValue j
          end
      end
  end.

(** The value a field's default resolves to before conversion, when it does. *)
Definition resolved_default (f : field) : option pyval :=
  match fd_default f with
  | RDEmpty => None
  | RDValue v => Some v
  | RDCallable sc call =>
      match match sc with Some r => r | None => Ok tt end, call with
      | Ok _, Ok v => Some v
      | _, _ => None
      end
  end.

(** ** Concrete inputs *)


(** An [@action] bound to [get] only, and one bound to [get] and [post]. *)
Definition get_action : handler := {|
  h_name := "f"; h_bind_to_methods := ["get"]; h_mapping := []; h_cls := None; h_sas := None |}.
Definition get_post_action : handler := {|
  h_name := "f"; h_bind_to_methods := ["get"; "post"]; h_mapping := []; h_cls := None;
  h_sas := None |}.

(** A [@detail_route(methods=['POST'])] of DRF 3.7, which keeps the case. *)
Definition upper_post_action : handler := {|
  h_name := "f"; h_bind_to_methods := ["POST"]; h_mapping := []; h_cls := None; h_sas := None |}.

(** [swagger_auto_schema(operation_id='x')] *)
Definition with_operation_id : sas_args := {|
  a_method := None; a_methods := MsNone; a_auto_schema := None;
  a_request_body := PNone; a_query_serializer := PNone; a_manual_parameters := PNone;
  a_operation_id := PStr "x"; a_operation_description := PNone; a_operation_summary := PNone;
  a_security := PNone; a_deprecated := PNone; a_responses := PNone;
  a_field_inspectors := PNone; a_filter_inspectors := PNone; a_paginator_inspectors := PNone;
  a_extra_overrides := [] |}.

(** [swagger_auto_schema(method=m)] and [swagger_auto_schema(method=m, operation_id='x')] *)
Definition only_method (m : string) : sas_args := {|
  a_method := Some m; a_methods := MsNone; a_auto_schema := None;
  a_request_body := PNone; a_query_serializer := PNone; a_manual_parameters := PNone;
  a_operation_id := PNone; a_operation_description := PNone; a_operation_summary := PNone;
  a_security := PNone; a_deprecated := PNone; a_responses := PNone;
  a_field_inspectors := PNone; a_filter_inspectors := PNone; a_paginator_inspectors := PNone;
  a_extra_overrides := [] |}.
Definition method_with_operation_id (m : string) : sas_args := {|
  a_method := Some m; a_methods := MsNone; a_auto_schema := None;
  a_request_body := PNone; a_query_serializer := PNone; a_manual_parameters := PNone;
  a_operation_id := PStr "x"; a_operation_description := PNone; a_operation_summary := PNone;
  a_security := PNone; a_deprecated := PNone; a_responses := PNone;
  a_field_inspectors := PNone; a_filter_inspectors := PNone; a_paginator_inspectors := PNone;
  a_extra_overrides := [] |}.

(** [swagger_auto_schema(operation_id='x', **extra)] *)
Definition with_extra_overrides (extra : sdict) : sas_args := {|
  a_method := None; a_methods := MsNone; a_auto_schema := None;
  a_request_body := PNone; a_query_serializer := PNone; a_manual_parameters := PNone;
  a_operation_id := PStr "x"; a_operation_description := PNone; a_operation_summary := PNone;
  a_security := PNone; a_deprecated := PNone; a_responses := PNone;
  a_field_inspectors := PNone; a_filter_inspectors := PNone; a_paginator_inspectors := PNone;
  a_extra_overrides := extra |}.

(** [swagger_auto_schema(methods=s, operation_id='x')] with a bare string. *)
Definition methods_as_str (s : string) : sas_args := {|
  a_method := None; a_methods := MsStr s; a_auto_schema := None;
  a_request_body := PNone; a_query_serializer := PNone; a_manual_parameters := PNone;
  a_operation_id := PStr "x"; a_operation_description := PNone; a_operation_summary := PNone;
  a_security := PNone; a_deprecated := PNone; a_responses := PNone;
  a_field_inspectors := PNone; a_filter_inspectors := PNone; a_paginator_inspectors := PNone;
  a_extra_overrides := [] |}.

(** An [@api_view] method of a class defining [get], whose [get] attribute
    already carries overrides. *)
Definition decorated_get_api_view : handler := {|
  h_name := "get"; h_bind_to_methods := []; h_mapping := [];
  h_cls := Some {| vc_http_method_names := ["get"; "post"]; vc_attrs := [("get", true)] |};
  h_sas := None |}.

(** A method seen both as an [@api_view] method ([get]) and as an [@action]
    bound to [post]. *)
Definition mixed_view : handler := {|
  h_name := "f"; h_bind_to_methods := ["post"]; h_mapping := [];
  h_cls := Some {| vc_http_method_names := ["get"]; vc_attrs := [("get", false)] |};
  h_sas := None |}.

(** * Properties *)

(** ** Inversion of the monad *)

Section MonadInversion.
Context {S : Type}.

Lemma bind_inv {A B} (m : M S A) (k : A -> M S B) s s' b :
  bind m k s = (s', Ok b) -> exists s1 x, m s = (s1, Ok x) /\ k x s1 = (s', Ok b).
Proof.
  unfold bind. destruct (m s) as [s1 [x | e]]; intros H; [eauto | discriminate].
Qed.

Lemma assert_inv b msg (s s' : S) u :
  assert b msg s = (s', Ok u) -> b = true /\ s' = s.
Proof. destruct b; cbv; intros H; inversion H; auto. Qed.

Lemma ret_inv {A} (x y : A) (s s' : S) : ret x s = (s', Ok y) -> x = y /\ s' = s.
Proof. cbv; intros H; inversion H; auto. Qed.

Lemma get_inv (s s' x : S) : get s = (s', Ok x) -> s' = s /\ x = s.
Proof. cbv; intros H; inversion H; auto. Qed.

Lemma lift_inv {A} (r : exn_or A) (s s' : S) x : lift r s = (s', Ok x) -> r = Ok x /\ s' = s.
Proof. cbv; intros H; inversion H; auto. Qed.

Lemma modify_inv f (s s' : S) u : modify f s = (s', Ok u) -> s' = f s.
Proof. cbv; intros H; inversion H; auto. Qed.

End MonadInversion.

Ltac step H :=
  let s := fresh "s" in let x := fresh "x" in let H1 := fresh "H" in
  apply bind_inv in H; destruct H as (s & x & H1 & H); cbv beta zeta in H.

Lemma select_ok a av ex h h' sel :
  select_methods a av ex h = (h', Ok sel) ->
  h' = h /\
  if methods_truthy (a_methods a) || method_truthy (a_method a)
  then nonempty av = true
       /\ xorb (methods_truthy (a_methods a)) (method_truthy (a_method a)) = true
       /\ sel = selector_names a
       /\ forallb (fun m => mem m av) sel = true
       /\ existsb (fun m => in_keys m ex) sel = false
  else sel = [].
Proof.
  unfold select_methods. intros H.
  destruct (methods_truthy (a_methods a) || method_truthy (a_method a)) eqn:Esel.
  - step H. apply assert_inv in H0 as [Hav ->].
    step H. apply assert_inv in H0 as [Hx ->].
    step H. apply assert_inv in H0 as [Hstr ->].
    step H. apply assert_inv in H0 as [Hall ->].
    step H. apply assert_inv in H0 as [Hnone ->].
    apply ret_inv in H as [<- ->].
    assert (Hsel : (if method_truthy (a_method a)
                    then match a_method a with Some m => [lower m] | None => [] end
                    else map lower (methods_list (a_methods a))) = selector_names a).
    { unfold selector_names.
      destruct (method_truthy (a_method a)) eqn:Em.
      - destruct (a_methods a) as [| s | l]; simpl in *; try reflexivity.
        + rewrite app_nil_r. reflexivity.
        + rewrite app_nil_r. reflexivity.
        + destruct l; simpl in Hx; [rewrite app_nil_r; reflexivity | discriminate].
      - reflexivity. }
    rewrite Hsel in *. repeat split; try first [assumption | reflexivity].
    apply negb_true_iff; assumption.
  - apply ret_inv in H as [<- ->]. auto.
Qed.


Lemma decorator_ok_inv a h h' r :
  decorator a h = (h', Ok r) ->
  existsb (fun hm => in_keys hm (a_extra_overrides a)) http_method_names = false /\
  exists data, build_data a = Ok data /\
  match r with
  | RetNone => data = [] /\ h' = h
  | RetHandler =>
      data <> [] /\
      exists sel,
        select_methods a (available_http_methods h) (existing_data h) h = (h, Ok sel) /\
        if nonempty (available_http_methods h)
        then let ms := written_methods sel (available_http_methods h) in
             nonempty ms = true
             /\ existsb (fun m => in_keys m (existing_data h)) ms = false
             /\ h' = set_sas h (Some (dict_update (existing_data h)
                                        (map (fun m => (lower m, pdict_of data)) ms)))
        else sel = [] /\ existing_data h = [] /\ h' = set_sas h (Some data)
  end.
Proof.
  intros H. unfold decorator in H.
  step H. apply assert_inv in H0 as [Hext ->].
  split; [apply negb_true_iff; exact Hext |].
  step H. apply lift_inv in H0 as [Hdata ->].
  exists x0; split; [exact Hdata |].
  destruct (negb (nonempty x0)) eqn:Hne.
  - apply ret_inv in H as [<- ->]. destruct x0; [auto | discriminate].
  - step H. apply get_inv in H0 as [-> ->].
    step H. pose proof (select_ok _ _ _ _ _ _ H0) as [-> _].
    fold (available_http_methods h) in H. fold (existing_data h) in H.
    destruct (nonempty (available_http_methods h)) eqn:Hav.
    + step H. apply assert_inv in H1 as [_ ->].
      step H.
      assert (Hms : nonempty x3 = true /\ x3 = written_methods x1 (available_http_methods h)
                    /\ s = h).
      { unfold written_methods.
        destruct (1 <? length (available_http_methods h)).
        - step H1. apply assert_inv in H2 as [Hs ->]. apply ret_inv in H1 as [<- ->]. auto.
        - apply ret_inv in H1 as [<- ->]. destruct x1; simpl; auto.
          all: destruct (available_http_methods h); [discriminate | auto]. }
      destruct Hms as (Hms & -> & ->). clear H1.
      step H. apply assert_inv in H1 as [_ ->].
      step H. apply assert_inv in H1 as [Hdup ->].
      step H. apply modify_inv in H1 as ->.
      step H. apply modify_inv in H1 as ->.
      apply ret_inv in H as [<- ->].
      split; [destruct x0; discriminate |].
      exists x1. split; [exact H0 |].
      repeat split; [exact Hms | apply negb_true_iff; exact Hdup |].
      destruct h as [n b mp c [d |]]; reflexivity.
    + step H. apply assert_inv in H1 as [Hsel ->].
      step H. apply assert_inv in H1 as [Hex ->].
      step H. apply modify_inv in H1 as ->.
      apply ret_inv in H as [<- ->].
      split; [destruct x0; discriminate |].
      exists x1. split; [exact H0 |].
      repeat split.
      * destruct x1; [reflexivity | discriminate].
      * destruct (existing_data h); [reflexivity | discriminate].
Qed.

(** ** Lower-casing and dict keys *)

Lemma lower_ascii_idem c : lower_ascii (lower_ascii c) = lower_ascii c.
Proof. destruct c as [[] [] [] [] [] [] [] []]; reflexivity. Qed.

Lemma lower_idem s : lower (lower s) = lower s.
Proof. induction s as [| c s IH]; simpl; [reflexivity | now rewrite lower_ascii_idem, IH]. Qed.

Lemma in_keys_cons k k' v d :
  in_keys k ((k', v) :: d) = String.eqb k k' || in_keys k d.
Proof. reflexivity. Qed.

Lemma in_keys_dict_set_same k v d : in_keys k (dict_set k v d) = true.
Proof.
  induction d as [| [k' v'] d IH]; simpl.
  - unfold in_keys; simpl. now rewrite String.eqb_refl.
  - destruct (String.eqb k k') eqn:E; rewrite in_keys_cons.
    + now rewrite String.eqb_refl.
    + rewrite IH. apply orb_true_r.
Qed.

Lemma in_keys_dict_set_mono k k' v d :
  in_keys k d = true -> in_keys k (dict_set k' v d) = true.
Proof.
  induction d as [| [k0 v0] d IH]; simpl; [discriminate |].
  rewrite in_keys_cons. intros H.
  destruct (String.eqb k' k0) eqn:E; rewrite in_keys_cons.
  - apply String.eqb_eq in E; subst k'. exact H.
  - apply orb_true_iff in H as [H | H].
    + rewrite H. reflexivity.
    + rewrite IH by exact H. apply orb_true_r.
Qed.

Lemma in_keys_update_mono k d pairs :
  in_keys k d = true -> in_keys k (dict_update d pairs) = true.
Proof.
  revert d; induction pairs as [| [k' v] pairs IH]; intros d H; simpl; [exact H |].
  apply IH, in_keys_dict_set_mono, H.
Qed.

Lemma in_keys_update k d pairs :
  In k (map fst pairs) -> in_keys k (dict_update d pairs) = true.
Proof.
  revert d; induction pairs as [| [k' v] pairs IH]; intros d H; simpl in *; [contradiction |].
  destruct H as [<- | H].
  - apply in_keys_update_mono, in_keys_dict_set_same.
  - apply IH, H.
Qed.

Lemma dict_set_nonempty k v d : dict_set k v d <> [].
Proof. destruct d as [| [k' v'] d]; simpl; [discriminate |]. destruct (String.eqb k k'); discriminate. Qed.

Lemma dict_update_nonempty d pairs : pairs <> [] -> dict_update d pairs <> [].
Proof.
  revert d; induction pairs as [| [k v] pairs IH]; intros d H; [contradiction |].
  simpl. destruct pairs as [| p pairs'].
  - apply dict_set_nonempty.
  - apply IH. discriminate.
Qed.

Lemma in_keys_In k d : in_keys k d = true <-> In k (map fst d).
Proof.
  unfold in_keys. rewrite existsb_exists. split.
  - intros (x & Hx & E). apply String.eqb_eq in E. now subst.
  - intros H. exists k. split; [exact H | apply String.eqb_refl].
Qed.

Lemma mem_In s l : mem s l = true <-> In s l.
Proof.
  unfold mem. rewrite existsb_exists. split.
  - intros (x & Hx & E). apply String.eqb_eq in E. now subst.
  - intros H. exists s. split; [exact H | apply String.eqb_refl].
Qed.

Lemma selector_names_lower a : Forall (fun m => lower m = m) (selector_names a).
Proof.
  unfold selector_names. apply Forall_app. split.
  - destruct (method_truthy (a_method a)); [| constructor].
    destruct (a_method a); repeat constructor. apply lower_idem.
  - apply Forall_forall. intros x Hx. apply in_map_iff in Hx as (y & <- & _). apply lower_idem.
Qed.

Lemma written_methods_sel sel av : nonempty sel = true -> written_methods sel av = sel.
Proof. unfold written_methods. destruct (1 <? length av), sel; easy. Qed.

Lemma existing_data_set h d : existing_data (set_sas h (Some d)) = d.
Proof. reflexivity. Qed.

Lemma available_set h d : available_http_methods (set_sas h d) = available_http_methods h.
Proof. reflexivity. Qed.

Ltac split_in H :=
  repeat (simpl in H;
    match type of H with
    | context [if ?b then _ else _] => let E := fresh "E" in destruct b eqn:E
    | context [match ?x with _ => _ end] => let E := fresh "E" in destruct x eqn:E
    end).

(** Every [assert] of the decorator comes before its writes: a raised
    exception leaves the view method as it was. *)
Lemma decorator_raise_unchanged a h h' e :
  decorator a h = (h', Raise e) -> h' = h.
Proof.
  intros H. unfold decorator, select_methods, bind, assert, ret, raise, lift, get, modify in H.
  split_in H.
  all: inversion H; reflexivity.
Qed.

Lemma build_data_empty_extra a : build_data a = Ok [] -> a_extra_overrides a = [].
Proof.
  unfold build_data.
  destruct (list_or_none (a_filter_inspectors a)); [| discriminate].
  destruct (list_or_none (a_paginator_inspectors a)); [| discriminate].
  destruct (list_or_none (a_field_inspectors a)); [| discriminate].
  intros H. injection H as H.
  destruct (a_extra_overrides a) as [| p ps]; [reflexivity |].
  exfalso. eapply dict_update_nonempty; [| exact H]. discriminate.
Qed.

(** ** Reading the dicts *)

Lemma dict_get_set_same k v d : dict_get k (dict_set k v d) = Some v.
Proof.
  induction d as [| [k' v'] d IH]; simpl; [now rewrite String.eqb_refl |].
  destruct (String.eqb k k') eqn:E; simpl; [now rewrite String.eqb_refl | rewrite E; exact IH].
Qed.

Lemma dict_get_set_other k k' v d :
  k <> k' -> dict_get k (dict_set k' v d) = dict_get k d.
Proof.
  intros Hne. induction d as [| [k0 v0] d IH]; simpl.
  - apply String.eqb_neq in Hne. now rewrite Hne.
  - destruct (String.eqb k' k0) eqn:E; simpl.
    + apply String.eqb_eq in E; subst k0.
      apply String.eqb_neq in Hne. now rewrite Hne.
    + destruct (String.eqb k k0); [reflexivity | exact IH].
Qed.

Lemma dict_get_update_notin k d pairs :
  ~ In k (map fst pairs) -> dict_get k (dict_update d pairs) = dict_get k d.
Proof.
  revert d; induction pairs as [| [k' v] pairs IH]; intros d H; simpl in *; [reflexivity |].
  rewrite IH by tauto. apply dict_get_set_other. intros ->. apply H. left. reflexivity.
Qed.

Lemma dict_get_update_in k v d pairs :
  NoDup (map fst pairs) -> In (k, v) pairs -> dict_get k (dict_update d pairs) = Some v.
Proof.
  revert d; induction pairs as [| [k' v'] pairs IH]; intros d Hnd H; simpl in *; [contradiction |].
  inversion Hnd as [| ? ? Hnotin Hnd']; subst.
  destruct H as [E | H].
  - injection E as -> ->. rewrite dict_get_update_notin by exact Hnotin.
    apply dict_get_set_same.
  - apply IH; assumption.
Qed.

Lemma dict_get_update_const k v d pairs :
  Forall (fun p => snd p = v) pairs -> In k (map fst pairs) ->
  dict_get k (dict_update d pairs) = Some v.
Proof.
  revert d; induction pairs as [| [k' v'] pairs IH]; intros d Hv H; simpl in *; [contradiction |].
  apply Forall_cons_iff in Hv as [Hv0 Hv']. simpl in Hv0. subst v'.
  destruct (in_dec String.string_dec k (map fst pairs)) as [Hin | Hnotin].
  - apply IH; assumption.
  - destruct H as [-> | H]; [| contradiction].
    rewrite dict_get_update_notin by exact Hnotin. apply dict_get_set_same.
Qed.

Lemma dict_get_In k v d : dict_get k d = Some v -> In (k, v) d.
Proof.
  induction d as [| [k' v'] d IH]; simpl; [discriminate |].
  destruct (String.eqb k k') eqn:E.
  - intros H. injection H as <-. apply String.eqb_eq in E. subst. left. reflexivity.
  - intros H. right. apply IH, H.
Qed.

Lemma dict_get_notin k d : ~ In k (map fst d) -> dict_get k d = None.
Proof.
  induction d as [| [k' v'] d IH]; simpl; intros H; [reflexivity |].
  destruct (String.eqb k k') eqn:E.
  - apply String.eqb_eq in E. subst. tauto.
  - apply IH. tauto.
Qed.

Lemma in_keys_dict_set k k' v d : in_keys k (dict_set k' v d) = String.eqb k k' || in_keys k d.
Proof.
  induction d as [| [k0 v0] d IH]; simpl.
  - unfold in_keys; simpl. now rewrite orb_false_r.
  - destruct (String.eqb k' k0) eqn:E; rewrite !in_keys_cons.
    + apply String.eqb_eq in E. subst k0.
      destruct (String.eqb k k'); reflexivity.
    + rewrite IH. destruct (String.eqb k k'), (String.eqb k k0); reflexivity.
Qed.

Lemma in_keys_dict_update k d pairs :
  in_keys k (dict_update d pairs) = in_keys k d || in_keys k pairs.
Proof.
  revert d; induction pairs as [| [k' v] pairs IH]; intros d; simpl.
  - unfold in_keys at 2; simpl. now rewrite orb_false_r.
  - rewrite IH, in_keys_dict_set, in_keys_cons.
    destruct (String.eqb k k'), (in_keys k d), (in_keys k pairs); reflexivity.
Qed.

Lemma in_map_fst_filter {B} k (f : string * B -> bool) d :
  In k (map fst (filter f d)) -> In k (map fst d).
Proof.
  intros H. apply in_map_iff in H as (p & <- & Hp). apply filter_In in Hp as [Hp _].
  apply in_map, Hp.
Qed.

(** The three inspector lists of [build_data]. *)
Lemma build_data_ok a d :
  build_data a = Ok d ->
  exists fi pi fli,
    let data0 : sdict :=
      [("request_body", a_request_body a);
       ("query_serializer", a_query_serializer a);
       ("manual_parameters", a_manual_parameters a);
       ("operation_id", a_operation_id a);
       ("operation_description", a_operation_description a);
       ("security", a_security a);
       ("responses", a_responses a);
       ("filter_inspectors", fi);
       ("paginator_inspectors", pi);
       ("field_inspectors", fli)] in
    let data1 := filter (fun kv => not_none (snd kv)) data0 in
    d = dict_update (match a_auto_schema a with
                     | Some v => dict_set "auto_schema" v data1
                     | None => data1
                     end) (a_extra_overrides a).
Proof.
  unfold build_data.
  destruct (list_or_none (a_filter_inspectors a)) as [fi |]; [| discriminate].
  destruct (list_or_none (a_paginator_inspectors a)) as [pi |]; [| discriminate].
  destruct (list_or_none (a_field_inspectors a)) as [fli |]; [| discriminate].
  intros H. injection H as <-. exists fi, pi, fli. reflexivity.
Qed.

(** ** Selector checks left out of [select_ok] *)

Lemma select_str_raises a av ex h :
  methods_is_str (a_methods a) = true -> methods_truthy (a_methods a) = true ->
  exists e, select_methods a av ex h = (h, Raise e).
Proof.
  intros Hs Ht. unfold select_methods, bind, assert, ret, raise. rewrite Ht. simpl.
  destruct (nonempty av); [| eexists; reflexivity].
  destruct (method_truthy (a_method a)); simpl; [eexists; reflexivity |].
  rewrite Hs. simpl. eexists; reflexivity.
Qed.

Lemma select_sel_lower a av ex h h' sel :
  select_methods a av ex h = (h', Ok sel) -> Forall (fun m => lower m = m) sel.
Proof.
  intros H. apply select_ok in H as [_ H].
  destruct (methods_truthy (a_methods a) || method_truthy (a_method a)).
  - destruct H as (_ & _ & -> & _). apply selector_names_lower.
  - subst. constructor.
Qed.

Lemma written_methods_In m sel av : In m (written_methods sel av) -> In m sel \/ In m av.
Proof. unfold written_methods. destruct (1 <? length av), sel; auto. Qed.

(** The two checks of the decorator that [decorator_ok_inv] leaves out:
    a view method with both [@api_view] and [@action] methods, and a view
    class attribute that already carries overrides (lines 151 and 161). *)
Lemma decorator_ok_checks a h h' :
  decorator a h = (h', Ok RetHandler) -> nonempty (available_http_methods h) = true ->
  exists sel,
    select_methods a (available_http_methods h) (existing_data h) h = (h, Ok sel)
    /\ xorb (nonempty (api_view_http_methods h)) (nonempty (action_http_methods h)) = true
    /\ existsb (cls_attr_has_sas (h_cls h)) (written_methods sel (available_http_methods h))
       = false.
Proof.
  intros H Hav. unfold decorator in H.
  step H. apply assert_inv in H0 as [_ ->].
  step H. apply lift_inv in H0 as [_ ->].
  destruct (negb (nonempty x0)).
  - apply ret_inv in H as [? _]. discriminate.
  - step H. apply get_inv in H0 as [-> ->].
    step H. pose proof (select_ok _ _ _ _ _ _ H0) as [-> _].
    fold (available_http_methods h) in H. fold (existing_data h) in H.
    rewrite Hav in H.
    step H. apply assert_inv in H1 as [Hx ->].
    step H.
    assert (Hms : x3 = written_methods x1 (available_http_methods h) /\ s = h).
    { unfold written_methods.
      destruct (1 <? length (available_http_methods h)).
      - step H1. apply assert_inv in H2 as [Hs ->]. apply ret_inv in H1 as [<- ->].
        destruct x1; [discriminate | auto].
      - apply ret_inv in H1 as [<- ->]. auto. }
    destruct Hms as (-> & ->). clear H1.
    step H. apply assert_inv in H1 as [Hcls ->].
    exists x1. repeat split; [exact H0 | exact Hx | apply negb_true_iff, Hcls].
Qed.

Lemma target_written a h h' t sel :
  select_methods a (available_http_methods h) (existing_data h) h = (h', Ok sel) ->
  In t (spec_targets a h) ->
  match t with
  | TWhole => available_http_methods h = [] /\ sel = []
  | TMethod m => nonempty (available_http_methods h) = true
                 /\ In m (written_methods sel (available_http_methods h))
  end.
Proof.
  intros Hsel Ht. apply select_ok in Hsel as [_ Hsel].
  unfold spec_targets in Ht.
  destruct (methods_truthy (a_methods a) || method_truthy (a_method a)).
  - destruct Hsel as (Hav & _ & -> & _ & _).
    apply in_map_iff in Ht as (m & <- & Hm). split; [exact Hav |].
    rewrite written_methods_sel by (destruct (selector_names a); [contradiction | reflexivity]).
    exact Hm.
  - subst sel. destruct (available_http_methods h) as [| m0 [| m1 av]].
    + destruct Ht as [<- | []]. auto.
    + destruct Ht as [<- | []]. split; [reflexivity | left; reflexivity].
    + contradiction.
Qed.

Lemma written_lower a h h' sel :
  select_methods a (available_http_methods h) (existing_data h) h = (h', Ok sel) ->
  Forall (fun m => lower m = m) (available_http_methods h) ->
  Forall (fun m => lower m = m) (written_methods sel (available_http_methods h)).
Proof.
  intros Hsel Hlow. apply select_sel_lower in Hsel.
  rewrite Forall_forall in *. intros m Hm.
  apply written_methods_In in Hm as [Hm | Hm]; auto.
Qed.

Lemma keeps_records a h h' k :
  Forall (fun m => lower m = m) (available_http_methods h) ->
  decorator a h = (h', Ok RetHandler) -> In k (map fst (existing_data h)) ->
  dict_get k (existing_data h') = dict_get k (existing_data h).
Proof.
  intros Hlow H Hk.
  apply decorator_ok_inv in H as (_ & data & _ & _ & sel & Hsel & Hbr).
  destruct (nonempty (available_http_methods h)).
  - destruct Hbr as (_ & Hdup & ->). rewrite existing_data_set.
    apply dict_get_update_notin. rewrite map_map. simpl. intros Hin.
    apply in_map_iff in Hin as (m & Hmk & Hm).
    pose proof (written_lower _ _ _ _ Hsel Hlow) as HL. rewrite Forall_forall in HL.
    rewrite (HL m Hm) in Hmk. subst m.
    assert (Hyes : existsb (fun m => in_keys m (existing_data h))
                     (written_methods sel (available_http_methods h)) = true).
    { apply existsb_exists. exists k. split; [exact Hm | apply in_keys_In, Hk]. }
    congruence.
  - destruct Hbr as (_ & Hex & _). rewrite Hex in Hk. contradiction.
Qed.

(** With an empty override spec the decorator checks nothing and writes
    nothing (line 121). *)
Lemma decorator_empty_data a h : build_data a = Ok [] -> decorator a h = (h, Ok RetNone).
Proof.
  intros Hd. unfold decorator, bind, assert, lift, ret.
  rewrite (build_data_empty_extra a Hd), Hd. reflexivity.
Qed.

Lemma decorator_shape a h :
  fst (decorator a h) = h \/ exists d, fst (decorator a h) = set_sas h (Some d).
Proof.
  destruct (decorator a h) as [h' [r | e]] eqn:H; simpl.
  - apply decorator_ok_inv in H as (_ & data & _ & Hr). destruct r.
    + left. apply Hr.
    + right. destruct Hr as (_ & sel & _ & Hbr).
      destruct (nonempty (available_http_methods h)); destruct Hbr as (_ & _ & ->); eauto.
  - left. eapply decorator_raise_unchanged; exact H.
Qed.

Lemma run_available calls h :
  available_http_methods (run_registrations calls h) = available_http_methods h.
Proof.
  revert h; induction calls as [| a calls IH]; intros h; simpl; [reflexivity |].
  rewrite IH. destruct (decorator_shape a h) as [-> | (d & ->)]; reflexivity.
Qed.

Lemma stored_nonempty t h : stored t h -> existing_data h <> [].
Proof. destruct t; simpl; [auto | intros H E; rewrite E in H; discriminate]. Qed.

(** Whatever a registration does, a stored record stays stored. *)
Lemma stored_persists t a h : stored t h -> stored t (fst (decorator a h)).
Proof.
  intros Hs.
  destruct (decorator a h) as [h' [r | e]] eqn:H; simpl.
  - apply decorator_ok_inv in H as (_ & data & _ & Hr). destruct r.
    + destruct Hr as [_ ->]. exact Hs.
    + destruct Hr as (_ & sel & _ & Hbr).
      destruct (nonempty (available_http_methods h)).
      * destruct Hbr as (_ & _ & ->). unfold stored in *. rewrite existing_data_set.
        destruct t as [| m].
        -- destruct (existing_data h) as [| [k v] d] eqn:E; [contradiction |].
           assert (Hk : in_keys k (dict_update ((k, v) :: d)
                          (map (fun m => (lower m, pdict_of data))
                             (written_methods sel (available_http_methods h)))) = true)
             by (apply in_keys_update_mono; unfold in_keys; simpl; now rewrite String.eqb_refl).
           intros E'. rewrite E' in Hk. discriminate.
        -- apply in_keys_update_mono, Hs.
      * destruct Hbr as (_ & Hex & _). exfalso. exact (stored_nonempty t h Hs Hex).
  - apply decorator_raise_unchanged in H. subst h'. exact Hs.
Qed.

Lemma run_stored t calls h : stored t h -> stored t (run_registrations calls h).
Proof.
  revert h; induction calls as [| a calls IH]; intros h Hs; simpl; [exact Hs |].
  apply IH, stored_persists, Hs.
Qed.

(** ** Registering twice *)

Lemma first_call_stores a h h' t :
  Forall (fun m => lower m = m) (available_http_methods h) ->
  decorator a h = (h', Ok RetHandler) -> In t (spec_targets a h) ->
  match t with
  | TWhole => existing_data h' <> []
  | TMethod m => in_keys m (existing_data h') = true
  end.
Proof.
  intros Hlow H Ht.
  apply decorator_ok_inv in H as (_ & data & _ & Hne & sel & Hsel & Hbr).
  apply select_ok in Hsel as [_ Hsel].
  unfold spec_targets in Ht.
  destruct (methods_truthy (a_methods a) || method_truthy (a_method a)) eqn:E.
  - destruct Hsel as (Hav & _ & -> & _ & _).
    rewrite Hav in Hbr. destruct Hbr as (_ & _ & ->).
    apply in_map_iff in Ht as (m & <- & Hm).
    rewrite existing_data_set.
    assert (Hn : nonempty (selector_names a) = true)
      by (destruct (selector_names a); [contradiction | reflexivity]).
    rewrite written_methods_sel by exact Hn.
    apply in_keys_update. rewrite map_map. apply in_map_iff. exists m. split; [| exact Hm].
    pose proof (selector_names_lower a) as HF. rewrite Forall_forall in HF. apply HF, Hm.
  - subst sel.
    destruct (available_http_methods h) as [| m0 [| m1 av]] eqn:Eav.
    + destruct Ht as [<- | []]. destruct Hbr as (_ & _ & ->). rewrite existing_data_set. exact Hne.
    + destruct Ht as [<- | []]. destruct Hbr as (_ & _ & ->). rewrite existing_data_set.
      apply in_keys_update. simpl. left. inversion Hlow. assumption.
    + contradiction.
Qed.

Lemma second_call_fails a h t d :
  In t (spec_targets a h) ->
  match t with
  | TWhole => existing_data h <> []
  | TMethod m => in_keys m (existing_data h) = true
  end ->
  build_data a = Ok d -> d <> [] ->
  exists e, snd (decorator a h) = Raise e.
Proof.
  intros Ht Hstored Hd Hne.
  destruct (decorator a h) as [h' [r | e]] eqn:H; [exfalso | exists e; reflexivity].
  apply decorator_ok_inv in H as (_ & data & Hd' & Hr).
  rewrite Hd in Hd'. injection Hd' as <-.
  destruct r; [destruct Hr; contradiction |].
  destruct Hr as (_ & sel & Hsel & Hbr).
  apply select_ok in Hsel as [_ Hsel].
  unfold spec_targets in Ht.
  destruct (methods_truthy (a_methods a) || method_truthy (a_method a)) eqn:E.
  - destruct Hsel as (_ & _ & -> & _ & Hdup).
    apply in_map_iff in Ht as (m & <- & Hm).
    assert (Hx : existsb (fun m => in_keys m (existing_data h)) (selector_names a) = true)
      by (apply existsb_exists; exists m; auto).
    congruence.
  - subst sel.
    destruct (available_http_methods h) as [| m0 [| m1 av]] eqn:Eav.
    + destruct Ht as [<- | []]. destruct Hbr as (_ & Hex & _). contradiction.
    + destruct Ht as [<- | []]. destruct Hbr as (_ & Hdup & _).
      simpl in Hdup. rewrite Hstored in Hdup. discriminate.
    + contradiction.
Qed.

(** C1 (amended): for a view method whose available method names are lower
    case, once a registration has stored an override record for a target
    (a method, or the whole view method), any later registration, after any
    number of other registrations on it, that targets the same pair fails
    and leaves the view method unchanged when its override spec is not
    empty, and does not fail (it returns [None]) and changes nothing when its
    override spec is empty. *)
Theorem register_twice_fails h0 h1 a1 t calls a2 :
  Forall (fun m => lower m = m) (available_http_methods h0) ->
  decorator a1 h0 = (h1, Ok RetHandler) ->
  In t (spec_targets a1 h0) -> In t (spec_targets a2 (run_registrations calls h1)) ->
  (forall d2, build_data a2 = Ok d2 -> d2 <> [] ->
     exists e, decorator a2 (run_registrations calls h1) = (run_registrations calls h1, Raise e))
  /\ (build_data a2 = Ok [] ->
      decorator a2 (run_registrations calls h1) = (run_registrations calls h1, Ok RetNone)).
Proof.
  intros Hlow H1 Ht1 Ht2. split.
  - intros d2 Hd Hne.
    assert (Hs : stored t (run_registrations calls h1)).
    { apply run_stored. pose proof (first_call_stores a1 h0 h1 t Hlow H1 Ht1) as Hf.
      destruct t; exact Hf. }
    destruct (second_call_fails a2 (run_registrations calls h1) t d2 Ht2) as [e He];
      [destruct t; exact Hs | exact Hd | exact Hne |].
    exists e.
    destruct (decorator a2 (run_registrations calls h1)) as [h' r] eqn:E.
    simpl in He. subst r. apply decorator_raise_unchanged in E. subst h'. reflexivity.
  - apply decorator_empty_data.
Qed.

Lemma register_twice_fails_witness :
  let h1 := fst (decorator (method_with_operation_id "get") get_post_action) in
  let hn := run_registrations [method_with_operation_id "post"] h1 in
  exists e, decorator (method_with_operation_id "GET") hn = (hn, Raise e).
Proof.
  intros h1 hn.
  destruct (register_twice_fails get_post_action h1 (method_with_operation_id "get")
              (TMethod "get") [method_with_operation_id "post"]
              (method_with_operation_id "GET")) as [H _].
  - repeat constructor.
  - reflexivity.
  - simpl. left. reflexivity.
  - simpl. left. reflexivity.
  - apply (H [("operation_id", PStr "x")]); [reflexivity | discriminate].
Defined.

(** C1 as stated fails: after [swagger_auto_schema(operation_id='x')] stored
    a record for [get], [swagger_auto_schema(method='get')] on the same view
    method neither raises nor stores anything (it returns [None]). *)
Lemma register_twice_counterexample :
  let h1 := fst (decorator with_operation_id get_action) in
  snd (decorator with_operation_id get_action) = Ok RetHandler
  /\ In (TMethod "get") (spec_targets with_operation_id get_action)
  /\ In (TMethod "get") (spec_targets (only_method "get") h1)
  /\ in_keys "get" (existing_data h1) = true
  /\ decorator (only_method "get") h1 = (h1, Ok RetNone).
Proof. repeat split; simpl; auto. Qed.

(** With an upper-case bound method the duplicate check compares [POST]
    with the stored key [post]: the second implicit registration succeeds. *)
Lemma upper_case_action_registered_twice :
  let h1 := fst (decorator with_operation_id upper_post_action) in
  snd (decorator with_operation_id upper_post_action) = Ok RetHandler
  /\ snd (decorator with_operation_id h1) = Ok RetHandler.
Proof. split; reflexivity. Qed.

(** C2 (amended): with a non-empty override spec, a registration fails, and
    leaves the view method unchanged, on a view method with more than one
    available method when neither [method] nor [methods] is given, and when
    a non-empty [method], or a name in a [methods] list, is not an available
    method once lower-cased.  With an empty override spec it checks none of
    this: it does not fail and changes nothing (it returns [None]). *)
Theorem registration_selector_errors h a d :
  build_data a = Ok d ->
  (d <> [] ->
   (1 < length (available_http_methods h) /\ a_method a = None /\ a_methods a = MsNone)
   \/ (exists s, a_method a = Some s /\ s <> "" /\ ~ In (lower s) (available_http_methods h))
   \/ (exists l s, a_methods a = MsList l /\ In s l
                   /\ ~ In (lower s) (available_http_methods h)) ->
   exists e, decorator a h = (h, Raise e))
  /\ (d = [] -> decorator a h = (h, Ok RetNone)).
Proof.
  intros Hd. split; [| intros ->; apply decorator_empty_data, Hd].
  intros Hne Hcase.
  destruct (decorator a h) as [h' [r | e]] eqn:H;
    [exfalso | exists e; apply decorator_raise_unchanged in H as ->; reflexivity].
  apply decorator_ok_inv in H as (_ & data & Hd' & Hr).
  rewrite Hd in Hd'. injection Hd' as <-.
  destruct r; [destruct Hr; contradiction |].
  destruct Hr as (_ & sel & Hsel & Hbr).
  apply select_ok in Hsel as [_ Hsel].
  destruct Hcase as [(Hlen & Hm & Hms) | [(s & Hm & Hs & Hnot) | (l & s & Hms & Hs & Hnot)]].
  - rewrite Hm, Hms in Hsel. simpl in Hsel. subst sel.
    destruct (available_http_methods h) as [| m0 [| m1 av]]; simpl in Hlen; try lia.
    simpl in Hbr. destruct Hbr as (Hn & _). discriminate.
  - assert (Ht : method_truthy (a_method a) = true)
      by (rewrite Hm; simpl; apply negb_true_iff, String.eqb_neq, Hs).
    rewrite Ht, orb_true_r in Hsel. destruct Hsel as (_ & _ & -> & Hall & _).
    apply Hnot. apply mem_In.
    rewrite forallb_forall in Hall. apply Hall.
    unfold selector_names. rewrite Ht, Hm. left. reflexivity.
  - assert (Ht : methods_truthy (a_methods a) = true)
      by (rewrite Hms; destruct l; [contradiction | reflexivity]).
    rewrite Ht in Hsel. simpl in Hsel. destruct Hsel as (_ & _ & -> & Hall & _).
    apply Hnot. apply mem_In.
    rewrite forallb_forall in Hall. apply Hall.
    unfold selector_names. apply in_or_app. right. rewrite Hms. apply in_map, Hs.
Qed.

Lemma registration_selector_errors_witness :
  exists e, decorator with_operation_id get_post_action = (get_post_action, Raise e).
Proof.
  destruct (registration_selector_errors get_post_action with_operation_id
              [("operation_id", PStr "x")]) as [H _].
  - reflexivity.
  - apply H; [discriminate |]. left. split; [simpl; lia | split; reflexivity].
Defined.

(** C2 as stated fails: [swagger_auto_schema(method='put')] on an action
    bound to [get] only does not raise (it returns [None]). *)
Lemma registration_selector_counterexample :
  ~ In "put" (available_http_methods get_action)
  /\ decorator (only_method "put") get_action = (get_action, Ok RetNone).
Proof. split; [simpl; intros [H | []]; discriminate | reflexivity]. Qed.



(** C4: when the override spec is empty the decorator writes nothing but
    returns [None] instead of the view method (line 121: [return]). *)
Theorem empty_overrides_return_none a h :
  build_data a = Ok [] -> decorator a h = (h, Ok RetNone).
Proof.
  intros Hd. unfold decorator, bind, assert, lift, ret.
  rewrite (build_data_empty_extra a Hd), Hd. reflexivity.
Qed.

Lemma empty_overrides_return_none_witness :
  decorator default_args get_action = (get_action, Ok RetNone).
Proof. apply empty_overrides_return_none. reflexivity. Defined.

(** ** [param_list_to_odict] *)

Lemma key_eqb_eq k1 k2 : key_eqb k1 k2 = true <-> k1 = k2.
Proof.
  destruct k1 as [n1 i1], k2 as [n2 i2]. unfold key_eqb; simpl.
  rewrite andb_true_iff, !String.eqb_eq. split.
  - intros [-> ->]. reflexivity.
  - intros H. injection H as -> ->. auto.
Qed.

Lemma key_dec (k1 k2 : string * string) : {k1 = k2} + {k1 <> k2}.
Proof. decide equality; apply string_dec. Defined.

Lemma od_set_in {V} k (v : V) d :
  In k (map fst d) -> map fst (od_set k v d) = map fst d.
Proof.
  induction d as [| [k' v'] d IH]; simpl; [contradiction |].
  intros H. destruct (key_eqb k k') eqn:E; simpl; [reflexivity |].
  f_equal. apply IH. destruct H as [-> | H]; [| exact H].
  exfalso. assert (key_eqb k k = true) by (apply key_eqb_eq; reflexivity). congruence.
Qed.

Lemma od_set_notin {V} k (v : V) d :
  ~ In k (map fst d) -> od_set k v d = d ++ [(k, v)].
Proof.
  induction d as [| [k' v'] d IH]; simpl; [reflexivity |].
  intros H. destruct (key_eqb k k') eqn:E.
  - apply key_eqb_eq in E. exfalso. apply H. left. symmetry. exact E.
  - f_equal. apply IH. intros Hin. apply H. right. exact Hin.
Qed.

Definition od_step (d : list ((string * string) * parameter)) (p : parameter) :=
  od_set (param_key p) p d.

Lemma od_fold ps : forall d,
  NoDup (map fst d) ->
  (NoDup (map fst d ++ map param_key ps) ->
     fold_left od_step ps d = d ++ map (fun p => (param_key p, p)) ps)
  /\ (~ NoDup (map fst d ++ map param_key ps) ->
     length (fold_left od_step ps d) < length d + length ps).
Proof.
  induction ps as [| p ps IH]; intros d Hd; simpl.
  - rewrite !app_nil_r. split; [reflexivity | contradiction].
  - change (od_step d p) with (od_set (param_key p) p d).
    destruct (in_dec key_dec (param_key p) (map fst d)) as [Hin | Hnin].
    + split.
      * intros Hnd. exfalso. apply NoDup_remove_2 in Hnd. apply Hnd, in_or_app. left. exact Hin.
      * intros _. pose proof (od_set_in (param_key p) p d Hin) as Hk.
        assert (Hlen : length (od_set (param_key p) p d) = length d)
          by (rewrite <- (length_map fst), Hk, length_map; reflexivity).
        rewrite <- Hk in Hd. destruct (IH _ Hd) as [IH1 IH2].
        destruct (NoDup_dec key_dec (map fst (od_set (param_key p) p d) ++ map param_key ps))
          as [Hnd | Hnd].
        -- rewrite (IH1 Hnd), length_app, length_map, Hlen. lia.
        -- specialize (IH2 Hnd). rewrite Hlen in IH2. lia.
    + rewrite (od_set_notin _ _ _ Hnin).
      assert (Hd' : NoDup (map fst (d ++ [(param_key p, p)]))).
      { rewrite map_app. simpl. apply NoDup_app; [exact Hd | repeat constructor; simpl; tauto |].
        intros x Hx [<- | []]. contradiction. }
      destruct (IH _ Hd') as [IH1 IH2].
      assert (Hassoc : map fst (d ++ [(param_key p, p)]) ++ map param_key ps
                       = map fst d ++ param_key p :: map param_key ps)
        by (rewrite map_app, <- app_assoc; reflexivity).
      rewrite Hassoc in IH1, IH2. split.
      * intros Hnd. rewrite (IH1 Hnd), <- app_assoc. reflexivity.
      * intros Hnd. specialize (IH2 Hnd). rewrite length_app in IH2. simpl in IH2. lia.
Qed.

(** C5: [param_list_to_odict] raises exactly when two parameters share a
    [(name, in_)] key; otherwise it returns every parameter keyed by its
    [(name, in_)], in the order of the input. *)
Theorem param_list_to_odict_spec ps :
  match param_list_to_odict ps with
  | Ok r => NoDup (map param_key ps) /\ r = map (fun p => (param_key p, p)) ps
  | Raise _ => ~ NoDup (map param_key ps)
  end.
Proof.
  unfold param_list_to_odict, odict_of_params. fold od_step.
  destruct (od_fold ps [] (NoDup_nil _)) as [H1 H2]. simpl in H1, H2.
  destruct (NoDup_dec key_dec (map param_key ps)) as [Hnd | Hnd].
  - rewrite (H1 Hnd), length_map, Nat.eqb_refl. auto.
  - specialize (H2 Hnd).
    destruct (Nat.eqb (length (fold_left od_step ps [])) (length ps)) eqn:E; [| exact Hnd].
    apply Nat.eqb_eq in E. lia.
Qed.

(** The two examples of the spec: the same name in two locations is kept,
    the same name in the same location raises. *)
Lemma param_list_to_odict_examples :
  let q := {| p_name := "id"; p_in := "query"; p_rest := PNone |} in
  let pa := {| p_name := "id"; p_in := "path"; p_rest := PNone |} in
  param_list_to_odict [q; pa] = Ok [(("id", "query"), q); (("id", "path"), pa)]
  /\ param_list_to_odict [q; q] = Raise "duplicate Parameters found".
Proof. split; reflexivity. Qed.

(** ** [get_serializer_ref_name] *)

Lemma str_length_app p q :
  String.length (p ++ q) = String.length p + String.length q.
Proof. induction p as [| c p IH]; simpl; [reflexivity | now rewrite IH]. Qed.

Lemma substring_whole q : substring 0 (String.length q) q = q.
Proof. induction q as [| c q IH]; simpl; [reflexivity | now rewrite IH]. Qed.

Lemma substring_prefix p q : substring 0 (String.length p) (p ++ q) = p.
Proof. induction p as [| c p IH]; simpl; [destruct q; reflexivity | now rewrite IH]. Qed.

Lemma substring_suffix p q : substring (String.length p) (String.length q) (p ++ q) = q.
Proof. induction p as [| c p IH]; simpl; [apply substring_whole | exact IH]. Qed.

Lemma substring_split s k :
  k <= String.length s -> s = (substring 0 k s ++ substring k (String.length s - k) s)%string.
Proof.
  revert k; induction s as [| c s IH]; intros k Hk; simpl in *.
  - assert (k = 0) as -> by lia. reflexivity.
  - destruct k as [| k]; simpl.
    + now rewrite substring_whole.
    + f_equal. apply IH. lia.
Qed.

Lemma endswith_app p suf : endswith (p ++ suf) suf = true.
Proof.
  unfold endswith. rewrite str_length_app.
  replace (String.length p + String.length suf - String.length suf) with (String.length p) by lia.
  rewrite substring_suffix, String.eqb_refl, andb_true_r. apply Nat.leb_le. lia.
Qed.

Lemma endswith_true s suf :
  endswith s suf = true ->
  s = (substring 0 (String.length s - String.length suf) s ++ suf)%string.
Proof.
  unfold endswith. intros H. apply andb_true_iff in H as [Hle Heq].
  apply Nat.leb_le in Hle. apply String.eqb_eq in Heq.
  rewrite (substring_split s (String.length s - String.length suf)) at 1 by lia.
  replace (String.length s - (String.length s - String.length suf)) with (String.length suf) by lia.
  now rewrite Heq.
Qed.

Lemma ref_name_cases ser :
  match s_meta_ref_name ser with
  | Some r => get_serializer_ref_name ser = Ok r
  | None =>
      if String.eqb (s_class_name ser) "NestedSerializer" && s_is_model_serializer ser
      then match s_str_error ser with
           | Some e => get_serializer_ref_name ser = Raise e
           | None => get_serializer_ref_name ser = Ok None
           end
      else exists res, get_serializer_ref_name ser = Ok (Some res)
                       /\ spec_stripped (s_class_name ser) res
  end.
Proof.
  unfold get_serializer_ref_name.
  destruct (s_meta_ref_name ser) as [r |]; [reflexivity |].
  destruct (String.eqb (s_class_name ser) "NestedSerializer" && s_is_model_serializer ser).
  { destruct (s_str_error ser); reflexivity. }
  destruct (endswith (s_class_name ser) "Serializer") eqn:E.
  - eexists. split; [reflexivity |]. left. eexists. split; [| reflexivity].
    apply endswith_true, E.
  - eexists. split; [reflexivity |]. right. split; [| reflexivity].
    intros p Hp. rewrite Hp, endswith_app in E. discriminate.
Qed.

(** C6 (amended): an explicit [Meta.ref_name] is returned as it is;
    otherwise a [ModelSerializer] named [NestedSerializer] is inlined
    ([None]), unless [str(serializer)], evaluated for the debug message,
    raises, in which case that exception propagates; otherwise the result is
    the class name without a trailing ["Serializer"]. *)
Theorem serializer_ref_name_precedence ser :
  match s_meta_ref_name ser with
  | Some r => get_serializer_ref_name ser = Ok r
  | None =>
      if String.eqb (s_class_name ser) "NestedSerializer" && s_is_model_serializer ser
      then match s_str_error ser with
           | Some e => get_serializer_ref_name ser = Raise e
           | None => get_serializer_ref_name ser = Ok None
           end
      else exists res, get_serializer_ref_name ser = Ok (Some res)
                       /\ spec_stripped (s_class_name ser) res
  end.
Proof. apply ref_name_cases. Qed.

Lemma serializer_ref_name_examples :
  get_serializer_ref_name {| s_class_name := "UserSerializer"; s_is_model_serializer := false;
                             s_meta_ref_name := None; s_str_error := None |} = Ok (Some "User")
  /\ get_serializer_ref_name {| s_class_name := "NestedSerializer"; s_is_model_serializer := true;
                                s_meta_ref_name := None; s_str_error := None |} = Ok None.
Proof. split; reflexivity. Qed.

(** C6 as stated fails: a [ModelSerializer] named [NestedSerializer]
    without [Meta] (whose [str] raises in DRF's [get_fields]) makes
    [get_serializer_ref_name] raise instead of returning the inline marker. *)
Lemma serializer_ref_name_precedence_counterexample :
  get_serializer_ref_name {| s_class_name := "NestedSerializer"; s_is_model_serializer := true;
                             s_meta_ref_name := None;
                             s_str_error := Some "AssertionError: Class NestedSerializer missing Meta attribute" |}
  = Raise "AssertionError: Class NestedSerializer missing Meta attribute".
Proof. reflexivity. Qed.

Lemma serializer_suffix_only p : "Serializer" = (p ++ "Serializer")%string -> p = "".
Proof.
  intros H. apply (f_equal String.length) in H. rewrite str_length_app in H.
  destruct p; [reflexivity | simpl in H; lia].
Qed.

Lemma serializer_suffix_empty p : "" <> (p ++ "Serializer")%string.
Proof. destruct p; discriminate. Qed.

(** C7 (amended): the reference name is the empty string exactly when
    [Meta.ref_name] is set to [""], or when there is no [Meta.ref_name] and
    the class is named ["Serializer"] (or has an empty name); in every other
    case it is a non-empty string or the inline marker. *)
Theorem serializer_ref_name_empty ser :
  get_serializer_ref_name ser = Ok (Some "")
  <-> s_meta_ref_name ser = Some (Some "")
      \/ (s_meta_ref_name ser = None
          /\ (s_class_name ser = "Serializer" \/ s_class_name ser = "")).
Proof.
  pose proof (ref_name_cases ser) as Hc.
  destruct (s_meta_ref_name ser) as [r |] eqn:Em.
  - rewrite Hc. split;
      [intros H; injection H as ->; auto
      | intros [H | [H _]]; [injection H as ->; reflexivity | discriminate]].
  - destruct (String.eqb (s_class_name ser) "NestedSerializer" && s_is_model_serializer ser) eqn:En.
    + split.
      * intros H. destruct (s_str_error ser); rewrite Hc in H; discriminate.
      * intros [H | [_ [Hn | Hn]]]; [discriminate | |];
          rewrite Hn in En; discriminate.
    + destruct Hc as (res & Hr & Hs). rewrite Hr. split.
      * intros H. injection H as ->. right. split; [reflexivity |].
        destruct Hs as [(p & Hp & <-) | (_ & Hn)]; [left; exact Hp | right; symmetry; exact Hn].
      * intros [H | [_ [Hn | Hn]]]; [discriminate | |]; do 2 f_equal;
          rewrite Hn in Hs; destruct Hs as [(p & Hp & ->) | (Hno & ->)].
        -- apply serializer_suffix_only, Hp.
        -- exfalso. apply (Hno ""). reflexivity.
        -- exfalso. apply (serializer_suffix_empty p), Hp.
        -- reflexivity.
Qed.

(** C7 as stated fails: DRF's own [Serializer] class (no [Meta.ref_name])
    gets the empty reference name. *)
Lemma serializer_ref_name_empty_counterexample :
  get_serializer_ref_name {| s_class_name := "Serializer"; s_is_model_serializer := false;
                             s_meta_ref_name := None; s_str_error := None |} = Ok (Some "").
Proof. reflexivity. Qed.

(** ** [filter_none] *)

Lemma filter_idem {A} (f : A -> bool) l : filter f (filter f l) = filter f l.
Proof.
  induction l as [| x l IH]; simpl; [reflexivity |].
  destruct (f x) eqn:E; simpl; [rewrite E, IH | exact IH]; reflexivity.
Qed.

Lemma filter_all {A} (f : A -> bool) l : forallb f l = true -> filter f l = l.
Proof.
  induction l as [| x l IH]; simpl; [reflexivity |].
  intros H. apply andb_true_iff in H as [Hx Hl]. rewrite Hx, IH by exact Hl. reflexivity.
Qed.

Ltac filter_none_case :=
  unfold filter_none; simpl;
  match goal with
  | |- context [Nat.eqb (length (filter ?ff ?xs)) (length ?xs)] =>
      let E := fresh "E" in
      destruct (Nat.eqb (length (filter ff xs)) (length xs)) eqn:E; simpl;
      [ rewrite E; simpl; split; [reflexivity | auto]
      | rewrite filter_idem, Nat.eqb_refl; simpl; split;
        [ reflexivity
        | let Hall := fresh "Hall" in
          intros Hall; rewrite (filter_all _ _ Hall), Nat.eqb_refl in E; discriminate ] ]
  end.

(** C8: [filter_none] is idempotent, and leaves a collection without [None]
    entries as it is (so with the same length). *)
Theorem filter_none_idempotent x :
  filter_none (filter_none x) = filter_none x
  /\ (no_none_entries x = true -> filter_none x = x /\ py_len (filter_none x) = py_len x).
Proof.
  destruct x as [| b | n | str | l | l | kv | n];
    try (split; [reflexivity | intros _; split; reflexivity]).
  all: filter_none_case.
Qed.

(** ** [get_consumes] *)

(** C9: [get_consumes] returns all the media types, in order, when all are
    form media types, and otherwise exactly the others, in order. *)
Theorem get_consumes_spec (is_form_media_type : string -> bool) pcs :
  let mts := map media_type (match pcs with Some l => l | None => [] end) in
  (Forall (fun t => is_form_media_type t = true) mts -> get_consumes is_form_media_type pcs = mts)
  /\ (Exists (fun t => is_form_media_type t = false) mts ->
      get_consumes is_form_media_type pcs = filter (fun t => negb (is_form_media_type t)) mts).
Proof.
  intros mts. unfold get_consumes. fold mts. split.
  - intros H. assert (Hall : forallb is_form_media_type mts = true)
      by (apply forallb_forall; intros x Hx; rewrite Forall_forall in H; apply H, Hx).
    rewrite Hall. reflexivity.
  - intros H. destruct (forallb is_form_media_type mts) eqn:Hall; [| reflexivity].
    exfalso. apply Exists_exists in H as (x & Hx & Hf).
    rewrite forallb_forall in Hall. rewrite (Hall x Hx) in Hf. discriminate.
Qed.

Lemma get_consumes_examples :
  get_consumes drf_is_form_media_type
    (Some [{| media_type := "application/x-www-form-urlencoded" |};
           {| media_type := "multipart/form-data" |}])
  = ["application/x-www-form-urlencoded"; "multipart/form-data"]
  /\ get_consumes drf_is_form_media_type
       (Some [{| media_type := "application/json" |}; {| media_type := "multipart/form-data" |}])
     = ["application/json"].
Proof. split; reflexivity. Qed.

(** ** [is_list_view] *)

(** C10: the [method] argument of [is_list_view] plays no part: it is
    rebound to [getattr(view, action, None)] before it is read. *)
Theorem is_list_view_method_irrelevant path m1 m2 view :
  is_list_view path m1 view = is_list_view path m2 view.
Proof. reflexivity. Qed.

Lemma is_list_view_examples :
  is_list_view "/users/" "get"
    {| v_action := Some (Some "list"); v_attr_detail := []; v_suffix := None;
       v_detail_mixin := false |} = Ok true
  /\ is_list_view "/users/{id}/" "get"
    {| v_action := Some (Some "retrieve"); v_attr_detail := []; v_suffix := None;
       v_detail_mixin := false |} = Ok false
  /\ is_list_view "/users/{id}/" "get"
    {| v_action := None; v_attr_detail := []; v_suffix := None; v_detail_mixin := false |}
     = Ok false
  /\ is_list_view "/users/" "get"
    {| v_action := None; v_attr_detail := []; v_suffix := None; v_detail_mixin := false |}
     = Ok true.
Proof. repeat split; reflexivity. Qed.

(** * Further properties *)

(** ** The decorator *)

(** X1: an extra override named after an HTTP method makes the decorator
    raise at once, before anything is written (line 102). *)
Theorem reserved_override_keys_raise a h hm v :
  In hm http_method_names -> In (hm, v) (a_extra_overrides a) ->
  decorator a h = (h, Raise "HTTP method names not allowed here").
Proof.
  intros Hhm Hin. unfold decorator, bind, assert, raise.
  assert (E : existsb (fun hm => in_keys hm (a_extra_overrides a)) http_method_names = true).
  { apply existsb_exists. exists hm. split; [exact Hhm |].
    apply in_keys_In, in_map_iff. exists (hm, v). auto. }
  rewrite E. reflexivity.
Qed.

Lemma reserved_override_keys_raise_witness :
  decorator (with_extra_overrides [("get", PStr "y")]) get_action
  = (get_action, Raise "HTTP method names not allowed here").
Proof.
  apply (reserved_override_keys_raise _ _ "get" (PStr "y")); simpl; auto.
Defined.

(** X2: the [operation_summary] and [deprecated] arguments play no part in
    the decorator: neither the stored overrides nor the outcome depend on
    them. *)
Theorem summary_deprecated_ignored a h summary deprecated :
  build_data (with_summary_deprecated a summary deprecated) = build_data a
  /\ decorator (with_summary_deprecated a summary deprecated) h = decorator a h.
Proof. split; reflexivity. Qed.

(** X3: the stored overrides never have an [operation_summary] or a
    [deprecated] key unless it came in through [**extra_overrides]. *)
Theorem summary_deprecated_never_stored a d k :
  build_data a = Ok d -> k = "operation_summary" \/ k = "deprecated" ->
  ~ In k (map fst (a_extra_overrides a)) -> ~ In k (map fst d).
Proof.
  intros Hd Hk Hex Hin. apply build_data_ok in Hd as (fi & pi & fli & ->).
  apply in_keys_In in Hin. rewrite in_keys_dict_update in Hin.
  apply orb_true_iff in Hin as [Hin | Hin]; [| apply Hex, in_keys_In, Hin].
  destruct (a_auto_schema a) as [v |].
  - rewrite in_keys_dict_set in Hin. apply orb_true_iff in Hin as [Hin | Hin].
    + apply String.eqb_eq in Hin. destruct Hk; subst k; discriminate.
    + apply in_keys_In, in_map_fst_filter in Hin. simpl in Hin.
      destruct Hk; subst k; intuition discriminate.
  - apply in_keys_In, in_map_fst_filter in Hin. simpl in Hin.
    destruct Hk; subst k; intuition discriminate.
Qed.

Lemma summary_deprecated_never_stored_witness :
  ~ In "operation_summary" (map fst [("operation_id", PStr "x")]).
Proof.
  apply (summary_deprecated_never_stored with_operation_id [("operation_id", PStr "x")]).
  - reflexivity.
  - left. reflexivity.
  - simpl. tauto.
Defined.

(** X4: a [None] argument is dropped from the overrides, except
    [auto_schema]: the stored [auto_schema] is exactly the argument when it
    is not the [unset] sentinel (so [auto_schema=None] is kept), and absent
    when it is. *)
Theorem build_data_none_values a d :
  build_data a = Ok d ->
  (forall k, dict_get k d = Some PNone ->
             k = "auto_schema" \/ In k (map fst (a_extra_overrides a)))
  /\ (~ In "auto_schema" (map fst (a_extra_overrides a)) ->
      dict_get "auto_schema" d = a_auto_schema a).
Proof.
  intros Hd. apply build_data_ok in Hd as (fi & pi & fli & ->). split.
  - intros k Hk.
    destruct (in_dec String.string_dec k (map fst (a_extra_overrides a))) as [Hin | Hn];
      [right; exact Hin | left].
    rewrite dict_get_update_notin in Hk by exact Hn.
    destruct (a_auto_schema a) as [v |].
    + destruct (String.string_dec k "auto_schema") as [-> | Hne]; [reflexivity |].
      rewrite dict_get_set_other in Hk by exact Hne.
      apply dict_get_In, filter_In in Hk as [_ Hk]. discriminate.
    + apply dict_get_In, filter_In in Hk as [_ Hk]. discriminate.
  - intros Hn. rewrite dict_get_update_notin by exact Hn.
    destruct (a_auto_schema a) as [v |]; [apply dict_get_set_same |].
    apply dict_get_notin. intros Hin. apply in_map_fst_filter in Hin. simpl in Hin.
    intuition discriminate.
Qed.

Lemma build_data_none_values_witness :
  dict_get "auto_schema" [("operation_id", PStr "x")] = a_auto_schema with_operation_id.
Proof.
  apply (build_data_none_values with_operation_id [("operation_id", PStr "x")]).
  - reflexivity.
  - simpl. tauto.
Defined.

(** X5: every [**extra_overrides] entry is stored as given, [None] values
    included, over a standard argument of the same name. *)
Theorem extra_overrides_stored a d k v :
  build_data a = Ok d -> NoDup (map fst (a_extra_overrides a)) ->
  In (k, v) (a_extra_overrides a) -> dict_get k d = Some v.
Proof.
  intros Hd Hnd Hin. apply build_data_ok in Hd as (fi & pi & fli & ->).
  apply dict_get_update_in; assumption.
Qed.

Lemma extra_overrides_stored_witness :
  dict_get "operation_id" [("operation_id", PNone)] = Some PNone.
Proof.
  apply (extra_overrides_stored (with_extra_overrides [("operation_id", PNone)])
           [("operation_id", PNone)] "operation_id" PNone).
  - reflexivity.
  - repeat constructor. simpl. tauto.
  - simpl. auto.
Defined.

(** X6: with a non-empty override spec, a registration raises, leaving the
    view method as it was, when [methods] is a non-empty bare string, when
    both [method] and [methods] are given, or when either is given on a view
    method with no available method (lines 137-140). *)
Theorem selector_misuse_raises a h d :
  build_data a = Ok d -> d <> [] ->
  (exists s, a_methods a = MsStr s /\ s <> "")
  \/ (method_truthy (a_method a) = true /\ methods_truthy (a_methods a) = true)
  \/ ((methods_truthy (a_methods a) || method_truthy (a_method a)) = true
      /\ available_http_methods h = []) ->
  exists e, decorator a h = (h, Raise e).
Proof.
  intros Hd Hne Hcase.
  destruct (decorator a h) as [h' [r | e]] eqn:H.
  - exfalso. apply decorator_ok_inv in H as (_ & data & Hd' & Hr).
    rewrite Hd in Hd'. injection Hd' as <-.
    destruct r; [destruct Hr; contradiction |].
    destruct Hr as (_ & sel & Hsel & _).
    destruct Hcase as [(s & Hm & Hs) | [(H1 & H2) | (Ht & Hav)]].
    + destruct (select_str_raises a (available_http_methods h) (existing_data h) h)
        as [e He]; [rewrite Hm; reflexivity | |].
      * rewrite Hm. simpl. apply negb_true_iff, String.eqb_neq, Hs.
      * congruence.
    + apply select_ok in Hsel as [_ Hsel]. rewrite H1, H2 in Hsel. simpl in Hsel.
      destruct Hsel as (_ & Hx & _). discriminate.
    + apply select_ok in Hsel as [_ Hsel]. rewrite Ht in Hsel.
      destruct Hsel as (Hn & _). rewrite Hav in Hn. discriminate.
  - exists e. apply decorator_raise_unchanged in H as Hh. subst h'. reflexivity.
Qed.

Lemma selector_misuse_raises_witness :
  exists e, decorator (methods_as_str "get") get_post_action = (get_post_action, Raise e).
Proof.
  apply (selector_misuse_raises _ _ [("operation_id", PStr "x")]).
  - reflexivity.
  - discriminate.
  - left. exists "get". split; [reflexivity | discriminate].
Defined.

(** X7: with a non-empty override spec, a registration on a view method that
    has both [@api_view] methods and [@action] methods raises (line 151). *)
Theorem api_view_and_action_raise a h d :
  build_data a = Ok d -> d <> [] ->
  api_view_http_methods h <> [] -> action_http_methods h <> [] ->
  exists e, decorator a h = (h, Raise e).
Proof.
  intros Hd Hne Hapi Hact.
  destruct (decorator a h) as [h' [r | e]] eqn:H.
  - exfalso.
    assert (Hav : nonempty (available_http_methods h) = true).
    { unfold available_http_methods. destruct (api_view_http_methods h); [contradiction | reflexivity]. }
    destruct r.
    + apply decorator_ok_inv in H as (_ & data & Hd' & Hr).
      rewrite Hd in Hd'. injection Hd' as <-. destruct Hr; contradiction.
    + apply decorator_ok_checks in H as (sel & _ & Hx & _); [| exact Hav].
      destruct (api_view_http_methods h); [contradiction |].
      destruct (action_http_methods h); [contradiction |]. discriminate.
  - exists e. apply decorator_raise_unchanged in H as Hh. subst h'. reflexivity.
Qed.

Lemma api_view_and_action_raise_witness :
  exists e, decorator with_operation_id mixed_view = (mixed_view, Raise e).
Proof.
  apply (api_view_and_action_raise _ _ [("operation_id", PStr "x")]).
  - reflexivity.
  - discriminate.
  - discriminate.
  - discriminate.
Defined.

(** X8: with a non-empty override spec, a registration targeting a method
    whose attribute on the view class already carries overrides raises
    (lines 161-162). *)
Theorem class_override_conflict_raises a h d m :
  build_data a = Ok d -> d <> [] ->
  In (TMethod m) (spec_targets a h) -> cls_attr_has_sas (h_cls h) m = true ->
  exists e, decorator a h = (h, Raise e).
Proof.
  intros Hd Hne Ht Hcls.
  destruct (decorator a h) as [h' [r | e]] eqn:H.
  - exfalso. destruct r.
    + apply decorator_ok_inv in H as (_ & data & Hd' & Hr).
      rewrite Hd in Hd'. injection Hd' as <-. destruct Hr; contradiction.
    + pose proof H as H'.
      apply decorator_ok_inv in H' as (_ & data & _ & Hr). destruct Hr as (_ & sel & Hsel & _).
      pose proof (target_written _ _ _ _ _ Hsel Ht) as [Hav Hm].
      apply decorator_ok_checks in H as (sel' & Hsel' & _ & Hno); [| exact Hav].
      rewrite Hsel in Hsel'. injection Hsel' as <-.
      assert (Hyes : existsb (cls_attr_has_sas (h_cls h))
                       (written_methods sel (available_http_methods h)) = true)
        by (apply existsb_exists; eauto).
      congruence.
  - exists e. apply decorator_raise_unchanged in H as Hh. subst h'. reflexivity.
Qed.

Lemma class_override_conflict_raises_witness :
  exists e, decorator with_operation_id decorated_get_api_view
            = (decorated_get_api_view, Raise e).
Proof.
  apply (class_override_conflict_raises _ _ [("operation_id", PStr "x")] "get").
  - reflexivity.
  - discriminate.
  - simpl. left. reflexivity.
  - reflexivity.
Defined.

(** X9: a successful registration leaves every override record already
    stored on the view method as it was, for a view method whose available
    method names are lower case. *)
Theorem registration_keeps_other_records a h h' k :
  Forall (fun m => lower m = m) (available_http_methods h) ->
  decorator a h = (h', Ok RetHandler) -> In k (map fst (existing_data h)) ->
  dict_get k (existing_data h') = dict_get k (existing_data h).
Proof. apply keeps_records. Qed.

Lemma registration_keeps_other_records_witness :
  let h1 := fst (decorator (method_with_operation_id "get") get_post_action) in
  dict_get "get" (existing_data (fst (decorator (method_with_operation_id "post") h1)))
  = dict_get "get" (existing_data h1).
Proof.
  intros h1.
  apply (registration_keeps_other_records (method_with_operation_id "post") h1).
  - repeat constructor.
  - reflexivity.
  - simpl. left. reflexivity.
Defined.

(** X10: a successful registration stores the override record under each
    method it targets (as a dict value), or as the whole record of a view
    method without available methods. *)
Theorem registration_stores_data a h h' d t :
  Forall (fun m => lower m = m) (available_http_methods h) ->
  decorator a h = (h', Ok RetHandler) -> build_data a = Ok d -> In t (spec_targets a h) ->
  match t with
  | TWhole => h_sas h' = Some d
  | TMethod m => dict_get m (existing_data h') = Some (pdict_of d)
  end.
Proof.
  intros Hlow H Hd Ht.
  apply decorator_ok_inv in H as (_ & data & Hd' & _ & sel & Hsel & Hbr).
  rewrite Hd in Hd'. injection Hd' as <-.
  pose proof (target_written _ _ _ _ _ Hsel Ht) as Hw.
  destruct t as [| m].
  - destruct Hw as [Hav ->]. rewrite Hav in Hbr. simpl in Hbr.
    destruct Hbr as (_ & _ & ->). reflexivity.
  - destruct Hw as [Hav Hm]. rewrite Hav in Hbr. destruct Hbr as (_ & _ & ->).
    rewrite existing_data_set. apply dict_get_update_const.
    + apply Forall_forall. intros p Hp. apply in_map_iff in Hp as (x & <- & _). reflexivity.
    + rewrite map_map. simpl. apply in_map_iff. exists m. split; [| exact Hm].
      pose proof (written_lower _ _ _ _ Hsel Hlow) as HL. rewrite Forall_forall in HL.
      apply HL, Hm.
Qed.

Lemma registration_stores_data_witness :
  dict_get "get" (existing_data (fst (decorator with_operation_id get_action)))
  = Some (pdict_of [("operation_id", PStr "x")]).
Proof.
  apply (registration_stores_data with_operation_id get_action _ _ (TMethod "get")).
  - repeat constructor.
  - reflexivity.
  - reflexivity.
  - simpl. left. reflexivity.
Defined.

(** ** [filter_none] *)

Lemma filter_length_eq {A} (f : A -> bool) l : length (filter f l) = length l -> filter f l = l.
Proof.
  induction l as [| x l IH]; simpl; [reflexivity |].
  destruct (f x); simpl; intros H.
  - rewrite IH by lia. reflexivity.
  - pose proof (filter_length_le f l). lia.
Qed.

Lemma forallb_filter {A} (f : A -> bool) l : forallb f (filter f l) = true.
Proof.
  apply forallb_forall. intros x Hx. apply filter_In in Hx as [_ Hx]. exact Hx.
Qed.

(** X11: [filter_none] keeps the kind of a collection and the order of its
    entries: it drops exactly the [None] entries of a list or a tuple and
    the entries of a dict with a [None] key or value; so its result never
    has [None] entries. *)
Theorem filter_none_shape l kv x :
  filter_none (PList l) = PList (filter not_none l)
  /\ filter_none (PTuple l) = PTuple (filter not_none l)
  /\ filter_none (PDict kv)
     = PDict (filter (fun kv => not_none (fst kv) && not_none (snd kv)) kv)
  /\ no_none_entries (filter_none x) = true.
Proof.
  assert (HL : forall l, filter_none (PList l) = PList (filter not_none l)).
  { intros l0. unfold filter_none; simpl.
    destruct (Nat.eqb (length (filter not_none l0)) (length l0)) eqn:E; simpl; [| reflexivity].
    apply Nat.eqb_eq, filter_length_eq in E. now rewrite E. }
  assert (HT : forall l, filter_none (PTuple l) = PTuple (filter not_none l)).
  { intros l0. unfold filter_none; simpl.
    destruct (Nat.eqb (length (filter not_none l0)) (length l0)) eqn:E; simpl; [| reflexivity].
    apply Nat.eqb_eq, filter_length_eq in E. now rewrite E. }
  assert (HD : forall kv, filter_none (PDict kv)
                = PDict (filter (fun kv => not_none (fst kv) && not_none (snd kv)) kv)).
  { intros kv0. unfold filter_none; simpl.
    destruct (Nat.eqb (length (filter (fun kv => not_none (fst kv) && not_none (snd kv)) kv0))
                (length kv0)) eqn:E; simpl; [| reflexivity].
    apply Nat.eqb_eq, filter_length_eq in E. now rewrite E. }
  split; [apply HL |]. split; [apply HT |]. split; [apply HD |].
  destruct x as [| b | n | s | l0 | l0 | kv0 | n]; try reflexivity.
  - rewrite HL. apply forallb_filter.
  - rewrite HT. apply forallb_filter.
  - rewrite HD. apply forallb_filter.
Qed.

(** ** [get_consumes] *)

(** X12: [get_consumes] returns some of the parsers' media types, never
    none of them when there is a parser, and never a mix of form and
    non-form media types. *)
Theorem get_consumes_unmixed (is_form_media_type : string -> bool) pcs :
  let mts := map media_type (match pcs with Some l => l | None => [] end) in
  incl (get_consumes is_form_media_type pcs) mts
  /\ (mts <> [] -> get_consumes is_form_media_type pcs <> [])
  /\ (forallb is_form_media_type (get_consumes is_form_media_type pcs) = true
      \/ forallb (fun t => negb (is_form_media_type t)) (get_consumes is_form_media_type pcs)
         = true).
Proof.
  intros mts. unfold get_consumes. fold mts.
  destruct (forallb is_form_media_type mts) eqn:Hall.
  - split; [apply incl_refl |]. split; [auto |]. left. exact Hall.
  - split; [intros x Hx; apply filter_In in Hx as [Hx _]; exact Hx |]. split.
    + intros _ Hnil.
      assert (Hex : exists x, In x mts /\ is_form_media_type x = false).
      { apply not_true_iff_false in Hall.
        destruct (existsb (fun t => negb (is_form_media_type t)) mts) eqn:E.
        - apply existsb_exists in E as (x & Hx & Hf). exists x. split; [exact Hx |].
          apply negb_true_iff, Hf.
        - exfalso. apply Hall. apply forallb_forall. intros x Hx.
          destruct (is_form_media_type x) eqn:Hf; [reflexivity |].
          assert (existsb (fun t => negb (is_form_media_type t)) mts = true)
            by (apply existsb_exists; exists x; rewrite Hf; auto).
          congruence. }
      destruct Hex as (x & Hx & Hf).
      assert (Hin : In x (filter (fun e => negb (is_form_media_type e)) mts))
        by (apply filter_In; rewrite Hf; auto).
      rewrite Hnil in Hin. contradiction.
    + right. apply forallb_filter.
Qed.

(** ** [get_produces] *)





(** ** [force_serializer_instance] and [get_serializer_class] *)

(** X14: [force_serializer_instance] returns an instance of the class
    [get_serializer_class] finds, and is the identity on what it returns. *)
Theorem force_serializer_instance_class x y :
  force_serializer_instance x = Ok y ->
  (exists c, y = SOInstance c /\ get_serializer_class x = Ok (Some c))
  /\ get_serializer_class y = get_serializer_class x
  /\ force_serializer_instance y = Ok y.
Proof.
  destruct x as [| c | c]; simpl; [discriminate | |].
  - destruct (pc_is_serializer c) eqn:Hs; [| discriminate].
    destruct (pc_init_error c); [discriminate |].
    intros H. injection H as <-. simpl. rewrite Hs. eauto.
  - destruct (pc_is_serializer c) eqn:Hs; [| discriminate].
    intros H. injection H as <-. simpl. rewrite Hs. eauto.
Qed.

Lemma force_serializer_instance_class_witness :
  let c := {| pc_name := "UserSerializer"; pc_is_serializer := true; pc_init_error := None |} in
  (exists c', SOInstance c = SOInstance c' /\ get_serializer_class (SOClass c) = Ok (Some c'))
  /\ get_serializer_class (SOInstance c) = get_serializer_class (SOClass c)
  /\ force_serializer_instance (SOInstance c) = Ok (SOInstance c).
Proof. intros c. apply force_serializer_instance_class. reflexivity. Defined.

(** X15: [force_serializer_instance] succeeds exactly on the inputs for
    which [get_serializer_class] finds a class, unless calling that class
    raises; [None], which [get_serializer_class] accepts, is refused. *)
Theorem force_serializer_instance_accepts x :
  (exists y, force_serializer_instance x = Ok y)
  <-> exists c, get_serializer_class x = Ok (Some c)
               /\ (x = SOClass c -> pc_init_error c = None).
Proof.
  destruct x as [| c | c]; simpl.
  - split; [intros (y & H); discriminate | intros (c & H & _); discriminate].
  - destruct (pc_is_serializer c); destruct (pc_init_error c) eqn:E.
    + split; [intros (y & H); discriminate |].
      intros (c' & H & Hi). injection H as <-. rewrite Hi in E by reflexivity. discriminate.
    + split; [intros _; exists c; auto | eauto].
    + split; [intros (y & H); discriminate | intros (c' & H & _); discriminate].
    + split; [intros (y & H); discriminate | intros (c' & H & _); discriminate].
  - destruct (pc_is_serializer c).
    + split; [intros _; exists c; split; [reflexivity | discriminate] | eauto].
    + split; [intros (y & H); discriminate | intros (c' & H & _); discriminate].
Qed.

(** ** [get_field_default] *)

(** X16: a field without a default, a callable default whose [set_context]
    or call raises, and a default whose [to_representation] or JSON round
    trip raises all give [serializers.empty]: the exception never escapes. *)
Theorem get_field_default_failures json_roundtrip to_float setting f :
  (fd_default f = RDEmpty -> get_field_default json_roundtrip to_float setting f = FEmpty)
  /\ (forall sc call, fd_default f = RDCallable sc call ->
        (exists e, sc = Some (Raise e)) \/ (exists e, call = Raise e) ->
        get_field_default json_roundtrip to_float setting f = FEmpty)
  /\ (forall v, resolved_default f = Some v ->
        (exists e, fd_to_representation f v = Raise e)
        \/ (exists r e, fd_to_representation f v = Ok r /\ json_roundtrip r = Raise e) ->
        get_field_default json_roundtrip to_float setting f = FEmpty).
Proof.
  unfold get_field_default, resolved_default. split; [| split].
  - intros ->. reflexivity.
  - intros sc call -> [(e & ->) | (e & ->)]; [reflexivity |].
    destruct (match sc with Some r => r | None => Ok tt end); reflexivity.
  - intros v Hv Hfail.
    assert (Hd : match fd_default f with
                 | RDEmpty => FEmpty
                 | RDValue v => FValue v
                 | RDCallable set_context call =>
                     match match set_context with Some r => r | None => Ok tt end with
                     | Raise _ => FEmpty
                     | Ok _ => match call with Ok v => FValue v | Raise _ => FEmpty end
                     end
                 end = FValue v).
    { destruct (fd_default f) as [| v0 | sc call]; try discriminate.
      - injection Hv as ->. reflexivity.
      - destruct (match sc with Some r => r | None => Ok tt end); [| discriminate].
        destruct call; [| discriminate]. injection Hv as ->. reflexivity. }
    rewrite Hd.
    destruct Hfail as [(e & ->) | (r & e & -> & ->)]; reflexivity.
Qed.

(** X17: the [COERCE_DECIMAL_TO_STRING] setting only matters for a decimal
    field without its own [coerce_to_string], and [float] is only applied
    to decimal fields. *)
Theorem get_field_default_decimal json_roundtrip to_float to_float' setting setting' f :
  (fd_is_decimal f = false \/ fd_coerce_to_string f <> None ->
   get_field_default json_roundtrip to_float setting f
   = get_field_default json_roundtrip to_float setting' f)
  /\ (decimal_as_float setting f = false ->
      get_field_default json_roundtrip to_float setting f
      = get_field_default json_roundtrip to_float' setting f).
Proof.
  split.
  - intros H. assert (E : decimal_as_float setting f = decimal_as_float setting' f).
    { unfold decimal_as_float. destruct H as [-> | H]; [reflexivity |].
      destruct (fd_coerce_to_string f); [reflexivity | contradiction]. }
    unfold get_field_default. rewrite E. reflexivity.
  - intros E. unfold get_field_default. rewrite E. reflexivity.
Qed.

(** ** [is_list_view] *)

Lemma list_ascii_of_string_app s t :
  list_ascii_of_string (s ++ t) = list_ascii_of_string s ++ list_ascii_of_string t.
Proof. induction s as [| c s IH]; simpl; [reflexivity | now rewrite IH]. Qed.

Lemma drop_slashes_all l : forallb (Ascii.eqb ascii_slash) l = true -> drop_slashes l = [].
Proof.
  induction l as [| c l IH]; [reflexivity |]. cbn [forallb drop_slashes].
  intros H. apply andb_true_iff in H as [Hc Hl].
  rewrite Ascii.eqb_sym, Hc. apply IH, Hl.
Qed.

Lemma drop_slashes_snoc l :
  drop_slashes (l ++ [ascii_slash])
  = if forallb (Ascii.eqb ascii_slash) l then [] else drop_slashes l ++ [ascii_slash].
Proof.
  induction l as [| c l IH]; [reflexivity |].
  cbn [app drop_slashes forallb]. rewrite (Ascii.eqb_sym ascii_slash c).
  destruct (Ascii.eqb c ascii_slash); cbn [andb]; [exact IH | reflexivity].
Qed.

Lemma last_path_component_trailing path :
  last_path_component (path ++ "/") = last_path_component path.
Proof.
  unfold last_path_component. rewrite list_ascii_of_string_app. simpl.
  change ["/"%char] with [ascii_slash]. rewrite drop_slashes_snoc.
  destruct (forallb (Ascii.eqb ascii_slash) (list_ascii_of_string path)) eqn:E.
  - rewrite (drop_slashes_all (list_ascii_of_string path) E). reflexivity.
  - rewrite rev_app_distr. reflexivity.
Qed.

Lemma last_path_component_leading path :
  last_path_component ("/" ++ path) = last_path_component path.
Proof. reflexivity. Qed.

(** X18: [is_list_view] raises exactly when the view's [action] attribute
    is [None]; an absent [action] attribute is read as [''] and is fine. *)
Theorem is_list_view_raises_iff path method view :
  (exists e, is_list_view path method view = Raise e) <-> v_action view = Some None.
Proof.
  unfold is_list_view. destruct (v_action view) as [[act |] |].
  - split; [| discriminate]. intros (e & H).
    repeat match type of H with
           | context [if ?b then _ else _] => destruct b
           end; discriminate.
  - split; [reflexivity | intros _; eexists; reflexivity].
  - split; [| discriminate]. intros (e & H).
    repeat match type of H with
           | context [if ?b then _ else _] => destruct b
           end; discriminate.
Qed.

(** X19: slashes at either end of the path never change [is_list_view]. *)
Theorem is_list_view_slashes path method view :
  is_list_view (path ++ "/") method view = is_list_view path method view
  /\ is_list_view ("/" ++ path) method view = is_list_view path method view.
Proof.
  unfold is_list_view. rewrite last_path_component_trailing, last_path_component_leading.
  split; reflexivity.
Qed.
